(** * accumulator.Batch: a shallow embedding of [accumulator/batch.go]

    The Go package [accumulator] keeps, per Lambda extension process, one
    [Batch]: a byte buffer holding an ndjson payload (a metadata line followed
    by newline-prefixed events), the open invocations keyed by request ID, an
    entry counter and the instant of the first entry.  This file embeds the
    methods of [Batch] and the helper [findEventType] as Rocq functions and
    proves the properties the specification states about them.

    Conventions.
    - [[]byte] is [list byte]; a Go [string] is [string]; [int] is [Z] with
      the 64-bit wrap-around written out where the code does arithmetic.
    - [time.Time] is a [Z] (nanoseconds); [0] is the zero time, the value of
      [zeroTime].  A call that reads [time.Now()] takes the reading as the
      argument [now].
    - A Go [error] result is [option Err]; [None] is [nil].
    - A run-time panic (a slice expression or [Truncate] out of range) is the
      outcome [Panics]. *)

From Stdlib Require Import ZArith Lia Strings.Byte Floats.SpecFloat DecimalString.
From stdpp Require Import gmap strings list fin_maps.

Local Open Scope Z_scope.

(** ** Bytes *)

Abbreviation bytes := (list byte).

#[global] Instance byte_eq_dec : EqDecision byte := Byte.byte_eq_dec.

(** The string conversion [[]byte(s)]. *)
Definition bytes_of (s : string) : bytes := String.list_byte_of_string s.

(** The string conversion [string(b)]. *)
Definition string_of (b : bytes) : string := String.string_of_list_byte b.

Definition newline : byte := x0a.
Definition dquote : byte := x22.
Definition squote : byte := x27.

(** ** Outcomes of code that may panic *)

Inductive run (A : Type) : Type :=
| Ret (a : A)
| Panics.
Arguments Ret {A} a.
Arguments Panics {A}.

#[global] Instance run_eq_dec {A : Type} `{EqDecision A} : EqDecision (run A).
Proof. solve_decision. Defined.

Definition run_bind {A B} (m : run A) (k : A -> run B) : run B :=
  match m with
  | Ret a => k a
  | Panics => Panics
  end.

(** A Go slice value is [nil] ([None]) or a possibly empty run of bytes. *)
Abbreviation slice := (option bytes).

Definition slice_bytes (s : slice) : bytes := default [] s.

(** The slice expression [s[lo:]]; out of range it panics. *)
Definition slice_from (s : bytes) (lo : nat) : run bytes :=
  if decide (lo <= length s)%nat then Ret (drop lo s) else Panics.

(** The slice expression [s[:hi]] for an [int] bound; out of range it panics. *)
Definition slice_to (s : bytes) (hi : Z) : run bytes :=
  if decide (0 <= hi <= Z.of_nat (length s)) then Ret (take (Z.to_nat hi) s)
  else Panics.

(** [bytes.IndexByte]: the index of the first [c] in [b], or [-1]. *)
Fixpoint IndexByte (b : bytes) (c : byte) : Z :=
  match b with
  | [] => -1
  | x :: b' =>
      if decide (x = c) then 0
      else let r := IndexByte b' c in if decide (r = -1) then -1 else r + 1
  end.

(** ** findEventType *)

Definition is_quote (r : byte) : bool :=
  bool_decide (r = dquote) || bool_decide (r = squote).

(** The [for i, r := range body] loop of [findEventType]: the state is the
    pair [(quote, key)], initially the zero byte and the nil slice; [rest] is
    what remains of [body] from index [i] on. *)
Fixpoint findEventType_loop (body : bytes) (i : nat) (rest : bytes)
  : run (byte * slice) :=
  match rest with
  | [] => Ret (x00, None)
  | r :: rest' =>
      if is_quote r then
        run_bind (slice_from body (i + 1)) (fun key => Ret (r, Some key))
      else findEventType_loop body (S i) rest'
  end.

Definition findEventType (body : bytes) : run slice :=
  run_bind (findEventType_loop body 0 body) (fun '(quote, key) =>
    let end_ := IndexByte (slice_bytes key) quote in
    if decide (end_ = -1) then Ret None
    else run_bind (slice_to (slice_bytes key) end_) (fun t => Ret (Some t))).

(** ** float64, as far as [ShouldShip] uses it

    IEEE 754 binary64 with round-to-nearest-even, through the Standard
    Library's executable specification of floating-point numbers. *)

Abbreviation float64 := spec_float.

Definition prec64 : Z := 53.
Definition emax64 : Z := 1024.

(** The conversion [float64(n)] of an [int]. *)
Definition float64_of_int (n : Z) : float64 :=
  binary_normalize prec64 emax64 n 0 false.

Definition float64_mul (x y : float64) : float64 := SFmul prec64 emax64 x y.

(** The conversion [int(f)]: the fraction is discarded (truncation towards
    zero).  Go leaves the result for a value outside [int] to the
    implementation; amd64 gives the least [int], as written here. *)
Definition int_of_float64 (f : float64) : Z :=
  match f with
  | S754_zero _ => 0
  | S754_finite s m e =>
      let a := if decide (0 <= e) then Z.pos m * 2 ^ e
               else Z.pos m / 2 ^ (- e) in
      let v := if s then - a else a in
      if decide (- 2 ^ 63 <= v < 2 ^ 63) then v else - 2 ^ 63
  | _ => - 2 ^ 63
  end.

(** [maxSizeThreshold = 0.9]: the binary64 number nearest to nine tenths,
    [8106479329266893 * 2^-53]. *)
Definition maxSizeThreshold : float64 :=
  S754_finite false 8106479329266893 (-53).

(** ** int *)

Definition wrap64 (z : Z) : Z := (z + 2 ^ 63) mod 2 ^ 64 - 2 ^ 63.

(** ** Errors *)

Inductive Err : Type :=
| ErrMetadataUnavailable
| ErrBatchFull
| ErrInvalidEncoding
| ErrNoInvocation (requestID : string)
| ErrDecode.

#[global] Instance Err_eq_dec : EqDecision Err.
Proof. solve_decision. Defined.

(** ** Invocation *)

Record Invocation : Type := mkInvocation {
  RequestID : string;
  FunctionARN : string;
  DeadlineMs : Z;
  Timestamp : Z;
  TraceID : string;
  TransactionID : string;
  TransactionObserved : bool
}.

(** Modelled from the spec: [Invocation.NeedProxyTransaction] of
    invocation.go, which is not among the sources: "TransactionID is not
    empty and TransactionObserved is false". *)
Definition NeedProxyTransaction (inc : Invocation) : bool :=
  negb (bool_decide (TransactionID inc = EmptyString))
  && negb (TransactionObserved inc).

Definition set_Transaction (transactionID traceID : string) (i : Invocation)
  : Invocation :=
  {| RequestID := RequestID i; FunctionARN := FunctionARN i;
     DeadlineMs := DeadlineMs i; Timestamp := Timestamp i;
     TraceID := traceID; TransactionID := transactionID;
     TransactionObserved := TransactionObserved i |}.

Definition set_TransactionObserved (o : bool) (i : Invocation) : Invocation :=
  {| RequestID := RequestID i; FunctionARN := FunctionARN i;
     DeadlineMs := DeadlineMs i; Timestamp := Timestamp i;
     TraceID := TraceID i; TransactionID := TransactionID i;
     TransactionObserved := o |}.

(** ** What the package calls and this file does not define

    [gjson_Str json path] is [gjson.GetBytes(json, path).Str] of the
    third-party package gjson; [createProxyTxn inc status now] is the
    transaction event [Invocation.Finalize] synthesizes; [gunzip] and
    [inflate] are the decoders of compress/gzip and compress/zlib, [None] when
    they report an error. *)
Class Externals : Type := {
  gjson_Str : bytes -> string -> string;
  createProxyTxn : Invocation -> string -> Z -> bytes;
  gunzip : bytes -> option bytes;
  inflate : bytes -> option bytes
}.

(** ** Batch *)

Record Batch : Type := mkBatch {
  metadataBytes : Z;
  buf : bytes;
  invocations : gmap string Invocation;
  count : Z;
  age : Z;
  maxSize : Z;
  maxAge : Z;
  currentlyExecutingRequestID : string
}.

Definition zeroTime : Z := 0.

Definition set_buf (v : bytes) (b : Batch) : Batch :=
  {| metadataBytes := metadataBytes b; buf := v;
     invocations := invocations b; count := count b; age := age b;
     maxSize := maxSize b; maxAge := maxAge b;
     currentlyExecutingRequestID := currentlyExecutingRequestID b |}.

Definition set_metadataBytes (v : Z) (b : Batch) : Batch :=
  {| metadataBytes := v; buf := buf b;
     invocations := invocations b; count := count b; age := age b;
     maxSize := maxSize b; maxAge := maxAge b;
     currentlyExecutingRequestID := currentlyExecutingRequestID b |}.

Definition set_invocations (v : gmap string Invocation) (b : Batch) : Batch :=
  {| metadataBytes := metadataBytes b; buf := buf b;
     invocations := v; count := count b; age := age b;
     maxSize := maxSize b; maxAge := maxAge b;
     currentlyExecutingRequestID := currentlyExecutingRequestID b |}.

Definition set_count (v : Z) (b : Batch) : Batch :=
  {| metadataBytes := metadataBytes b; buf := buf b;
     invocations := invocations b; count := v; age := age b;
     maxSize := maxSize b; maxAge := maxAge b;
     currentlyExecutingRequestID := currentlyExecutingRequestID b |}.

Definition set_age (v : Z) (b : Batch) : Batch :=
  {| metadataBytes := metadataBytes b; buf := buf b;
     invocations := invocations b; count := count b; age := v;
     maxSize := maxSize b; maxAge := maxAge b;
     currentlyExecutingRequestID := currentlyExecutingRequestID b |}.

Definition set_currentlyExecutingRequestID (v : string) (b : Batch) : Batch :=
  {| metadataBytes := metadataBytes b; buf := buf b;
     invocations := invocations b; count := count b; age := age b;
     maxSize := maxSize b; maxAge := maxAge b;
     currentlyExecutingRequestID := v |}.

(** [NewBatch]: the other fields take their zero values. *)
Definition NewBatch (maxSize maxAge : Z) : Batch :=
  {| metadataBytes := 0; buf := []; invocations := ∅; count := 0;
     age := zeroTime; maxSize := maxSize; maxAge := maxAge;
     currentlyExecutingRequestID := EmptyString |}.

(** [RegisterInvocation]: a fresh [Invocation] replaces whatever the map held
    under [requestID]. *)
Definition RegisterInvocation (requestID functionARN : string)
    (deadlineMs timestamp : Z) (b : Batch) : Batch :=
  set_currentlyExecutingRequestID requestID
    (set_invocations
       (<[requestID :=
            {| RequestID := requestID; FunctionARN := functionARN;
               DeadlineMs := deadlineMs; Timestamp := timestamp;
               TraceID := EmptyString; TransactionID := EmptyString;
               TransactionObserved := false |}]> (invocations b)) b).

(** The map holds pointers, one per key and shared with nobody else: a write
    through the pointer found under [key] is a write to the map's entry. *)
Definition store (key : string) (inc : Invocation) (b : Batch) : Batch :=
  set_invocations (<[key := inc]> (invocations b)) b.

Definition OnAgentInit (transactionID traceID : string) (b : Batch)
  : Batch * option Err :=
  match invocations b !! currentlyExecutingRequestID b with
  | None => (b, Some (ErrNoInvocation (currentlyExecutingRequestID b)))
  | Some i =>
      (store (currentlyExecutingRequestID b)
         (set_Transaction transactionID traceID i) b, None)
  end.

(** [addData]: [bytes.Buffer.WriteByte] and [Write] return a nil error, so the
    two error returns after them are never taken. *)
Definition addData (now : Z) (data : bytes) (b : Batch) : Batch * option Err :=
  if decide (metadataBytes b = 0) then (b, Some ErrMetadataUnavailable)
  else if decide (count b = maxSize b) then (b, Some ErrBatchFull)
  else
    let b1 := set_buf (buf b ++ newline :: data) b in
    let b2 := if decide (count b1 = 0) then set_age now b1 else b1 in
    (set_count (wrap64 (count b2 + 1)) b2, None).

Definition AddLambdaData (now : Z) (d : bytes) (b : Batch)
  : Batch * option Err :=
  addData now d b.

Definition Count (b : Batch) : Z := count b.

Definition ToAPMData (b : Batch) : bytes := buf b.

(** [bytes.Split(raw, []byte("\n"))]; the result is never empty. *)
Fixpoint Split (raw : bytes) : list bytes :=
  match raw with
  | [] => [[]]
  | c :: raw' =>
      if decide (c = newline) then [] :: Split raw'
      else match Split raw' with
           | [] => [[c]]
           | l :: ls => (c :: l) :: ls
           end
  end.

Section WithExternals.
Context `{Externals}.

(** Modelled from the spec: [GetUncompressedBytes] of apmdata.go, which is not
    among the sources: "identity (passthrough), gzip, deflate; any other
    value fails with InvalidEncoding". *)
Definition GetUncompressedBytes (data : bytes) (encoding : string)
  : bytes + Err :=
  if decide (encoding = "identity"%string) then inl data
  else if decide (encoding = "gzip"%string) then
    match gunzip data with Some raw => inl raw | None => inr ErrDecode end
  else if decide (encoding = "deflate"%string) then
    match inflate data with Some raw => inl raw | None => inr ErrDecode end
  else inr ErrInvalidEncoding.

(** Modelled from the spec: [Invocation.Finalize] of invocation.go, which is
    not among the sources: "if NeedProxyTransaction() is false, returns
    nothing; otherwise synthesize a transaction event".  [None] is the nil
    slice. *)
Definition Finalize (inc : Invocation) (status : string) (now : Z) : slice :=
  if NeedProxyTransaction inc then Some (createProxyTxn inc status now)
  else None.

(** One turn of the loop of [AddAgentData] over [data[i]]; [inc] is the pointer
    found under [key] before the loop.  A result [(b', None)] goes on with the
    next line, [(b', Some e)] returns [e]. *)
Definition AddAgentData_event (now : Z) (key : string) (line : bytes)
    (b : Batch) : run (Batch * option Err) :=
  match invocations b !! key with
  | None => Panics
  | Some inc =>
      if NeedProxyTransaction inc then
        run_bind (findEventType line) (fun t =>
          if decide (string_of (slice_bytes t) = "transaction"%string) then
            let res := gjson_Str line "transaction.id" in
            if negb (bool_decide (res = EmptyString))
               && bool_decide (TransactionID inc = res)
            then Ret (store key (set_TransactionObserved true inc) b, None)
            else Ret (addData now line b)
          else Ret (addData now line b))
      else Ret (addData now line b)
  end.

Fixpoint AddAgentData_loop (now : Z) (key : string) (events : list bytes)
    (b : Batch) : run (Batch * option Err) :=
  match events with
  | [] => Ret (b, None)
  | line :: events' =>
      run_bind (AddAgentData_event now key line b) (fun r =>
        match r with
        | (b', Some e) => Ret (b', Some e)
        | (b', None) => AddAgentData_loop now key events' b'
        end)
  end.

(** [b.buf.Write(data[0])] returns the number of bytes written. *)
Definition AddAgentData_metadata (line : bytes) (b : Batch) : Batch :=
  if decide (metadataBytes b = 0) then
    set_metadataBytes (Z.of_nat (length line)) (set_buf (buf b ++ line) b)
  else b.

Definition AddAgentData (now : Z) (data : bytes) (encoding : string)
    (b : Batch) : run (Batch * option Err) :=
  match GetUncompressedBytes data encoding with
  | inr err => Ret (b, Some err)
  | inl raw =>
      match Split raw with
      | [] => Ret (b, None)
      | line0 :: events =>
          match invocations b !! currentlyExecutingRequestID b with
          | None =>
              Ret (b, Some (ErrNoInvocation (currentlyExecutingRequestID b)))
          | Some _ =>
              AddAgentData_loop now (currentlyExecutingRequestID b) events
                (AddAgentData_metadata line0 b)
          end
      end
  end.

(** [finalizeInvocation]: the deferred [delete] runs after the result has been
    computed, on every path past the lookup. *)
Definition finalizeInvocation (now : Z) (reqID status : string) (b : Batch)
  : Batch * option Err :=
  match invocations b !! reqID with
  | None => (b, Some (ErrNoInvocation reqID))
  | Some inc =>
      let '(b', err) :=
        match Finalize inc status now with
        | Some proxyTxn => addData now proxyTxn b
        | None => (b, None)
        end in
      (set_invocations (delete reqID (invocations b')) b', err)
  end.

Definition OnLambdaLogRuntimeDone (now : Z) (reqID status : string)
    (b : Batch) : Batch * option Err :=
  finalizeInvocation now reqID status b.

(** The [range] loop of [OnShutdown].  Go visits the entries of a map in an
    order it does not specify; [order] is the order taken.  An entry deleted
    before the loop reaches it is not produced. *)
Fixpoint OnShutdown_loop (now : Z) (status : string) (order : list string)
    (b : Batch) : Batch * option Err :=
  match order with
  | [] => (b, None)
  | key :: order' =>
      match invocations b !! key with
      | None => OnShutdown_loop now status order' b
      | Some inc =>
          match finalizeInvocation now (RequestID inc) status b with
          | (b', Some e) => (b', Some e)
          | (b', None) => OnShutdown_loop now status order' b'
          end
      end
  end.

(** [order] is an order in which a [range] may visit the map of [b]. *)
Definition iteration_order (b : Batch) (order : list string) : Prop :=
  order ≡ₚ (map_to_list (invocations b)).*1.

Definition OnShutdown (now : Z) (status : string) (order : list string)
    (b : Batch) : Batch * option Err :=
  OnShutdown_loop now status order b.

End WithExternals.

(** [ShouldShip]; [now] is the reading of the clock that [time.Since] takes,
    and [time.Since(b.age)] is [now - age]: the saturation of a [Duration]
    at the ends of its range, some 292 years, is left out. *)
Definition threshold (maxSize : Z) : Z :=
  int_of_float64 (float64_mul (float64_of_int maxSize) maxSizeThreshold).

Definition ShouldShip (now : Z) (b : Batch) : bool :=
  bool_decide (count b >= threshold (maxSize b))
  || (negb (bool_decide (age b = zeroTime))
      && bool_decide (now - age b > maxAge b)).

(** [bytes.Buffer.Truncate(n)]: it panics unless [0 <= n <= Len()]. *)
Definition Truncate (n : Z) (buffer : bytes) : run bytes :=
  if decide (n = 0) then Ret []
  else if decide (n < 0 \/ n > Z.of_nat (length buffer)) then Panics
  else Ret (take (Z.to_nat n) buffer).

Definition Reset (b : Batch) : run Batch :=
  let b1 := set_age zeroTime (set_count 0 b) in
  run_bind (Truncate (metadataBytes b1) (buf b1)) (fun v => Ret (set_buf v b1)).


(** ** The calls of the package, and the states they reach *)

Inductive Call : Type :=
| CallRegisterInvocation (requestID functionARN : string)
    (deadlineMs timestamp : Z)
| CallOnAgentInit (transactionID traceID : string)
| CallAddAgentData (now : Z) (data : bytes) (encoding : string)
| CallOnLambdaLogRuntimeDone (now : Z) (reqID status : string)
| CallOnShutdown (now : Z) (status : string) (order : list string)
| CallAddLambdaData (now : Z) (d : bytes)
| CallReset.

(** The state a call leaves behind; the error it returns does not matter
    here. *)
Definition exec `{Externals} (c : Call) (b : Batch) : run Batch :=
  match c with
  | CallRegisterInvocation requestID functionARN deadlineMs timestamp =>
      Ret (RegisterInvocation requestID functionARN deadlineMs timestamp b)
  | CallOnAgentInit transactionID traceID =>
      Ret (OnAgentInit transactionID traceID b).1
  | CallAddAgentData now data encoding =>
      run_bind (AddAgentData now data encoding b) (fun r => Ret r.1)
  | CallOnLambdaLogRuntimeDone now reqID status =>
      Ret (OnLambdaLogRuntimeDone now reqID status b).1
  | CallOnShutdown now status order => Ret (OnShutdown now status order b).1
  | CallAddLambdaData now d => Ret (AddLambdaData now d b).1
  | CallReset => Reset b
  end.

(** The only choice a call leaves to the run time is the order in which
    [OnShutdown] ranges over the map. *)
Definition valid_call (b : Batch) (c : Call) : Prop :=
  match c with
  | CallOnShutdown _ _ order => iteration_order b order
  | _ => True
  end.

Definition int_range (z : Z) : Prop := - 2 ^ 63 <= z < 2 ^ 63.

(** The states of a [Batch] made by [NewBatch maxSize maxAge]. *)
Inductive reachable `{Externals} (maxSize maxAge : Z) : Batch -> Prop :=
| reachable_new :
    int_range maxSize -> reachable maxSize maxAge (NewBatch maxSize maxAge)
| reachable_call (b b' : Batch) (c : Call) :
    reachable maxSize maxAge b -> valid_call b c -> exec c b = Ret b' ->
    reachable maxSize maxAge b'.

(** A run of calls from one state to another. *)
Inductive calls `{Externals} : Batch -> Batch -> Prop :=
| calls_nil (b : Batch) : calls b b
| calls_cons (b b' b'' : Batch) (c : Call) :
    valid_call b c -> exec c b = Ret b' -> calls b' b'' -> calls b b''.

(** What every reachable state satisfies. *)
Record batch_inv (b : Batch) : Prop := {
  inv_metadata : 0 <= metadataBytes b <= Z.of_nat (length (buf b));
  inv_empty :
    count b = 0 ->
    Z.of_nat (length (buf b)) = metadataBytes b /\ age b = zeroTime;
  inv_entries :
    count b <> 0 ->
    metadataBytes b <> 0 /\ metadataBytes b < Z.of_nat (length (buf b));
  inv_int : int_range (count b) /\ int_range (maxSize b);
  inv_count :
    (0 <= count b \/ count b <= maxSize b < 0)
    /\ (0 <= maxSize b -> count b <= maxSize b);
  inv_keys :
    forall key inc, invocations b !! key = Some inc -> RequestID inc = key
}.

(** [b'] has the metadata length of [b] and a buffer that extends that of
    [b]. *)
Definition extends (b b' : Batch) : Prop :=
  metadataBytes b' = metadataBytes b
  /\ exists suffix, buf b' = buf b ++ suffix.

(** ** Reading the output *)

(** The entries [lines] as [addData] writes them: each after a newline. *)
Definition frame (lines : list bytes) : bytes :=
  concat (map (cons newline) lines).

(** [line] is a transaction event whose [transaction.id] is [id], as
    [AddAgentData] recognises one. *)
Definition is_transaction_of `{Externals} (id : string) (line : bytes) : bool :=
  bool_decide (findEventType line = Ret (Some (bytes_of "transaction")))
  && bool_decide (gjson_Str line "transaction.id" = id).

(** The number of transaction events with the given id among the entries of
    an output, which are the lines after its metadata line. *)
Definition transactions_of `{Externals} (id : string) (output : bytes) : nat :=
  length (filter (fun line => is_transaction_of id line = true)
            (tail (Split output))).


(** The event [line] is the transaction the invocation [inc] waits for: [inc]
    needs a proxy transaction, the first quoted key of [line] is
    "transaction", and its [transaction.id] is the invocation's
    [TransactionID]. *)
Definition observes `{Externals} (inc : Invocation) (line : bytes) : bool :=
  NeedProxyTransaction inc && is_transaction_of (TransactionID inc) line.

(** What [Finalize] appends for the keys of [order], in that order. *)
Definition proxies `{Externals} (now : Z) (status : string)
    (m : gmap string Invocation) (order : list string) : list bytes :=
  omap (fun key => m !! key ≫= fun inc => Finalize inc status now) order.

(** ** Entries and lines *)

(** The lines of a body put together again: the first as it is, each other
    after a newline. *)
Definition join (lines : list bytes) : bytes :=
  match lines with
  | [] => []
  | line :: lines' => line ++ frame lines'
  end.

(** The number of newline bytes of a body. *)
Definition newlines (raw : bytes) : nat :=
  length (filter (fun c => c = newline) raw).

(** From [b] to [b'] the entries [entries] were appended, in that order, and
    nothing else happened to the buffer, the counters and the limits: [count]
    grew by their number, and [age] changed only if the first of them was the
    first entry of the batch.  The invocations may differ. *)
Definition appended (entries : list bytes) (b b' : Batch) : Prop :=
  buf b' = buf b ++ frame entries
  /\ count b' = count b + Z.of_nat (length entries)
  /\ metadataBytes b' = metadataBytes b
  /\ maxSize b' = maxSize b /\ maxAge b' = maxAge b
  /\ (count b <> 0 \/ entries = [] -> age b' = age b).

(** The buffer of [b] is its metadata followed by [count] entries, each after
    a newline. *)
Definition framed (b : Batch) : Prop :=
  exists entries,
    buf b = take (Z.to_nat (metadataBytes b)) (buf b) ++ frame entries
    /\ count b = Z.of_nat (length entries).

(** The number of invocations among the keys [order] that need a proxy
    transaction. *)
Definition needing (m : gmap string Invocation) (order : list string) : nat :=
  length (filter (fun key =>
                    (NeedProxyTransaction <$> m !! key) = Some true) order).

(** A run of calls none of which is [Reset]. *)
Inductive calls_without_reset `{Externals} : Batch -> Batch -> Prop :=
| calls_without_reset_nil (b : Batch) : calls_without_reset b b
| calls_without_reset_cons (b b' b'' : Batch) (c : Call) :
    c <> CallReset -> valid_call b c -> exec c b = Ret b' ->
    calls_without_reset b' b'' -> calls_without_reset b b''.

(** ** The calls during an invocation *)







(** ** A concrete setting to run the scenarios in

    The theorems below hold for every [Externals].  To evaluate the
    operations on the scenarios of the specification, [gjson_Str] is read as
    gjson's path lookup on compact JSON objects (a dotted path of member
    names, the result's [Str] being the text of a string value and empty for
    every other value or a missing member), and the proxy transaction as the
    event the specification describes. *)

Module Scenario.

Definition backslash : byte := x5c.
Definition lbrace : byte := x7b.
Definition rbrace : byte := x7d.
Definition lbracket : byte := x5b.
Definition rbracket : byte := x5d.
Definition comma : byte := x2c.
Definition colon : byte := x3a.
Definition dot : byte := x2e.
Definition space : byte := x20.

(** The text of a JSON string whose opening quote has been read, and what
    follows its closing quote. *)
Fixpoint json_string (s : bytes) : bytes * bytes :=
  match s with
  | [] => ([], [])
  | c :: s' =>
      if decide (c = dquote) then ([], s')
      else if decide (c = backslash) then
        match s' with
        | [] => ([c], [])
        | d :: s'' => let '(k, r) := json_string s'' in (c :: d :: k, r)
        end
      else let '(k, r) := json_string s' in (c :: k, r)
  end.

(** Skips the JSON value at the head of [s]: [instr] and [esc] say whether the
    scan is inside a string and after a backslash, [depth] counts the open
    objects and arrays. *)
Fixpoint json_skip (instr esc : bool) (depth : nat) (s : bytes) : bytes :=
  match s with
  | [] => []
  | c :: s' =>
      if instr then
        if esc then json_skip true false depth s'
        else if decide (c = backslash) then json_skip true true depth s'
        else if decide (c = dquote) then
          match depth with
          | O => s'
          | _ => json_skip false false depth s'
          end
        else json_skip true false depth s'
      else if decide (c = dquote) then json_skip true false depth s'
      else if decide (c = lbrace \/ c = lbracket) then
        json_skip false false (S depth) s'
      else if decide (c = rbrace \/ c = rbracket) then
        match depth with
        | O => s
        | S O => s'
        | S d => json_skip false false d s'
        end
      else if decide (c = comma) then
        match depth with
        | O => s
        | _ => json_skip false false depth s'
        end
      else json_skip false false depth s'
  end.

Fixpoint skip_to_value (s : bytes) : bytes :=
  match s with
  | [] => []
  | c :: s' =>
      if decide (c = colon \/ c = space) then skip_to_value s' else s
  end.

(** The members of an object whose opening brace has been read. *)
Fixpoint gjson_object (fuel : nat) (path : list bytes) (s : bytes) : bytes :=
  match fuel with
  | O => []
  | S fuel' =>
      match s with
      | [] => []
      | c :: s' =>
          if decide (c = dquote) then
            let '(key, r) := json_string s' in
            let v := skip_to_value r in
            match path with
            | [] => []
            | p :: ps =>
                if decide (key = p) then
                  match ps, v with
                  | [], q :: v' =>
                      if decide (q = dquote) then fst (json_string v') else []
                  | _ :: _, q :: v' =>
                      if decide (q = lbrace) then gjson_object fuel' ps v'
                      else []
                  | _, _ => []
                  end
                else gjson_object fuel' path (json_skip false false 0 v)
            end
          else if decide (c = rbrace) then []
          else gjson_object fuel' path s'
      end
  end.

Fixpoint split_path (p : bytes) : list bytes :=
  match p with
  | [] => [[]]
  | c :: p' =>
      if decide (c = dot) then [] :: split_path p'
      else match split_path p' with
           | [] => [[c]]
           | l :: ls => (c :: l) :: ls
           end
  end.

Fixpoint skip_to_object (s : bytes) : option bytes :=
  match s with
  | [] => None
  | c :: s' => if decide (c = lbrace) then Some s' else skip_to_object s'
  end.

Definition gjson_get_str (json : bytes) (path : string) : string :=
  match skip_to_object json with
  | None => EmptyString
  | Some s => string_of (gjson_object (length s) (split_path (bytes_of path)) s)
  end.

Definition quoted (s : string) : bytes := dquote :: bytes_of s ++ [dquote].

Definition decimal (z : Z) : bytes :=
  bytes_of (NilZero.string_of_int (Z.to_int z)).

(** Modelled from the spec: the transaction event [Invocation.Finalize]
    builds in invocation.go, which is not among the sources: "a minimal APM
    transaction event carrying TraceID, TransactionID, the invocation's ARN as
    context, a duration computed from now - Timestamp, and status as the
    outcome", one JSON object on one line. *)
Definition proxy_transaction (inc : Invocation) (status : string) (now : Z)
  : bytes :=
  bytes_of "{" ++ quoted "transaction" ++ bytes_of ":{"
  ++ quoted "id" ++ bytes_of ":" ++ quoted (TransactionID inc) ++ bytes_of ","
  ++ quoted "trace_id" ++ bytes_of ":" ++ quoted (TraceID inc) ++ bytes_of ","
  ++ quoted "context" ++ bytes_of ":{" ++ quoted "arn" ++ bytes_of ":"
  ++ quoted (FunctionARN inc) ++ bytes_of "},"
  ++ quoted "duration" ++ bytes_of ":" ++ decimal (now - Timestamp inc)
  ++ bytes_of ","
  ++ quoted "outcome" ++ bytes_of ":" ++ quoted status ++ bytes_of "}}".

#[global] Instance externals : Externals := {|
  gjson_Str := gjson_get_str;
  createProxyTxn := proxy_transaction;
  gunzip := fun _ => None;
  inflate := fun _ => None
|}.

(** The lines of scenario S1. *)
Definition meta1 : bytes := bytes_of "{" ++ quoted "meta" ++ bytes_of ":1}".

Definition txn_event (id : string) : bytes :=
  bytes_of "{" ++ quoted "transaction" ++ bytes_of ":{" ++ quoted "id"
  ++ bytes_of ":" ++ quoted id ++ bytes_of "}}".

(** An event of the agent that is no transaction. *)
Definition span_event (id : string) : bytes :=
  bytes_of "{" ++ quoted "span" ++ bytes_of ":{" ++ quoted "id"
  ++ bytes_of ":" ++ quoted id ++ bytes_of "}}".

(** A batch that holds the metadata line of scenario S1 and nothing else. *)
Definition batch_with_metadata (maxSize : Z) : Batch :=
  {| metadataBytes := 10; buf := meta1; invocations := ∅;
     count := 0; age := zeroTime; maxSize := maxSize; maxAge := 1000;
     currentlyExecutingRequestID := EmptyString |}.

(** Scenario S2 before the platform reports the end of the run: [R2] is
    registered and announced by the agent, and no agent data has come. *)
Definition announced (maxSize : Z) : Batch :=
  (OnAgentInit "T2" "Tr2"
     (RegisterInvocation "R2" "arn:aws:lambda:fn" 3000 100
        (NewBatch maxSize 1000))).1.

(** Scenario S1: [R1] is registered and announced by the agent as
    transaction [T1] of trace [Tr1]; the agent then sends the metadata line
    and the event of its transaction, and the platform reports the end of the
    run. *)
Definition S1_announced (maxSize : Z) : Batch :=
  (OnAgentInit "T1" "Tr1"
     (RegisterInvocation "R1" "arn:aws:lambda:fn" 3000 100
        (NewBatch maxSize 1000))).1.

Definition S1_body : bytes := meta1 ++ [newline] ++ txn_event "T1".

Definition state_of (r : run (Batch * option Err)) (otherwise : Batch)
  : Batch :=
  match r with
  | Ret (b, _) => b
  | Panics => otherwise
  end.

Definition S1_after_agent (maxSize : Z) : Batch :=
  state_of (AddAgentData 150 S1_body "identity" (S1_announced maxSize))
    (S1_announced maxSize).

Definition S1_final (maxSize : Z) : Batch :=
  (OnLambdaLogRuntimeDone 200 "R1" "success" (S1_after_agent maxSize)).1.

(** Scenario S5 with both invocations announced by the agent: [R4] and [R5]
    are open, each with a transaction id, when the extension shuts down. *)
Definition S5_open (maxSize : Z) : Batch :=
  (OnAgentInit "T5" "Tr5"
     (RegisterInvocation "R5" "arn:aws:lambda:fn" 3000 200
        (OnAgentInit "T4" "Tr4"
           (RegisterInvocation "R4" "arn:aws:lambda:fn" 3000 100
              (NewBatch maxSize 1000))).1)).1.

(** The same after the agent has sent its metadata line, and nothing more. *)
Definition S5_with_metadata (maxSize : Z) : Batch :=
  state_of (AddAgentData 250 meta1 "identity" (S5_open maxSize))
    (S5_open maxSize).

End Scenario.

(** * Properties *)

(** ** The model on small inputs *)

Example IndexByte_example : IndexByte (bytes_of "a'b'c") squote = 1.
Proof. reflexivity. Qed.

Example IndexByte_absent_example : IndexByte (bytes_of "abc") squote = -1.
Proof. reflexivity. Qed.

Example Split_example :
  Split (bytes_of "a" ++ [newline; newline] ++ bytes_of "b")
  = [bytes_of "a"; []; bytes_of "b"].
Proof. reflexivity. Qed.

Example Split_empty : Split [] = [[]].
Proof. reflexivity. Qed.

Example findEventType_single_quotes :
  findEventType (bytes_of "{'span':{'id':'S1'}}") = Ret (Some (bytes_of "span")).
Proof. reflexivity. Qed.

Example findEventType_empty_key :
  findEventType (bytes_of "{" ++ [dquote; dquote] ++ bytes_of ":1}")
  = Ret (Some []).
Proof. reflexivity. Qed.

Example findEventType_unmatched_quote :
  findEventType (bytes_of "{'span") = Ret None.
Proof. reflexivity. Qed.

Example findEventType_no_quote : findEventType (bytes_of "{}") = Ret None.
Proof. reflexivity. Qed.

Example threshold_examples :
  map threshold [0; 1; 2; 9; 10; 11; 50; 100] = [0; 0; 1; 8; 9; 9; 45; 90].
Proof. by vm_compute. Qed.

Example gjson_get_str_examples :
  Scenario.gjson_get_str (Scenario.txn_event "T1") "transaction.id"
  = "T1"%string
  /\ Scenario.gjson_get_str (Scenario.txn_event "T1") "transaction.name"
     = EmptyString
  /\ Scenario.gjson_get_str Scenario.meta1 "meta" = EmptyString.
Proof. by vm_compute. Qed.

(** Scenario S2: the agent sends the metadata alone, and the finalization
    of [R2] appends the proxy transaction, the only transaction of [T2] in
    the output. *)
Example S2_timeout :
  let b := AddAgentData_metadata Scenario.meta1 (Scenario.announced 10) in
  let b' := (OnLambdaLogRuntimeDone 350 "R2" "timeout" b).1 in
  AddAgentData 150 Scenario.meta1 "identity" (Scenario.announced 10)
  = Ret (b, None)
  /\ (OnLambdaLogRuntimeDone 350 "R2" "timeout" b).2 = None
  /\ transactions_of "T2" (ToAPMData b') = 1%nat
  /\ Scenario.gjson_get_str (default [] (last (Split (ToAPMData b'))))
       "transaction.trace_id" = "Tr2"%string
  /\ Scenario.gjson_get_str (default [] (last (Split (ToAPMData b'))))
       "transaction.outcome" = "timeout"%string
  /\ Count b' = 1.
Proof. by vm_compute. Qed.

(** ** findEventType *)

Lemma IndexByte_absent (l : bytes) (c : byte) : c ∉ l -> IndexByte l c = -1.
Proof.
  induction l as [|x l IH]; intros Hc; simpl; [done|].
  apply not_elem_of_cons in Hc as [Hne Hl].
  rewrite decide_False by congruence.
  rewrite IH by done. by rewrite decide_True.
Qed.

Lemma IndexByte_first (mid post : bytes) (c : byte) :
  c ∉ mid -> IndexByte (mid ++ c :: post) c = Z.of_nat (length mid).
Proof.
  induction mid as [|x mid IH]; intros Hc; simpl.
  - by rewrite decide_True.
  - apply not_elem_of_cons in Hc as [Hne Hl].
    rewrite decide_False by congruence.
    rewrite IH by done. rewrite decide_False by lia. lia.
Qed.

Lemma IndexByte_range (l : bytes) (c : byte) :
  IndexByte l c = -1 \/ 0 <= IndexByte l c < Z.of_nat (length l).
Proof.
  induction l as [|x l IH]; simpl; [by left|].
  destruct (decide (x = c)); [right; lia|].
  destruct (decide (IndexByte l c = -1)); [by left|right; lia].
Qed.

Lemma findEventType_loop_none (body rest : bytes) (i : nat) :
  Forall (fun r => is_quote r = false) rest ->
  findEventType_loop body i rest = Ret (x00, None).
Proof.
  intros Hrest. revert i.
  induction Hrest as [|r rest Hr _ IH]; intros i; simpl; [done|].
  rewrite Hr. apply IH.
Qed.

Lemma findEventType_loop_quote (pre0 pre tl : bytes) (q : byte) :
  Forall (fun r => is_quote r = false) pre ->
  is_quote q = true ->
  findEventType_loop (pre0 ++ pre ++ q :: tl) (length pre0) (pre ++ q :: tl)
  = Ret (q, Some tl).
Proof.
  intros Hpre Hq. revert pre0.
  induction Hpre as [|r pre Hr _ IH]; intros pre0; simpl.
  - rewrite Hq. unfold slice_from.
    rewrite decide_True by (rewrite length_app; simpl; lia).
    simpl. replace (length pre0 + 1)%nat with (length (pre0 ++ [q])).
    + rewrite (cons_middle q pre0 tl), app_assoc, drop_app_length. done.
    + rewrite length_app. simpl. lia.
  - rewrite Hr.
    specialize (IH (pre0 ++ [r])).
    rewrite <- app_assoc in IH. simpl in IH.
    rewrite length_app in IH. simpl in IH.
    by replace (S (length pre0)) with (length pre0 + 1)%nat by lia.
Qed.

Lemma findEventType_unmatched (pre rest : bytes) (q : byte) :
  Forall (fun r => is_quote r = false) pre ->
  is_quote q = true -> q ∉ rest ->
  findEventType (pre ++ q :: rest) = Ret None.
Proof.
  intros Hpre Hq Hrest. unfold findEventType.
  pose proof (findEventType_loop_quote [] pre rest q Hpre Hq) as E.
  simpl in E. rewrite E. simpl.
  rewrite IndexByte_absent by done. by rewrite decide_True.
Qed.

Lemma findEventType_matched (pre mid post : bytes) (q : byte) :
  Forall (fun r => is_quote r = false) pre ->
  is_quote q = true -> q ∉ mid ->
  findEventType (pre ++ q :: mid ++ q :: post) = Ret (Some mid).
Proof.
  intros Hpre Hq Hmid. unfold findEventType.
  pose proof (findEventType_loop_quote [] pre (mid ++ q :: post) q Hpre Hq)
    as E.
  simpl in E. rewrite E. simpl. rewrite IndexByte_first by done.
  rewrite decide_False by lia. unfold slice_to.
  rewrite decide_True by (rewrite length_app; simpl; lia).
  simpl. rewrite Nat2Z.id. by rewrite take_app_length.
Qed.

(** Every body is of exactly one of three shapes. *)
Lemma body_shape (body : bytes) :
  Forall (fun r => is_quote r = false) body
  \/ exists pre q rest,
       body = pre ++ q :: rest
       /\ Forall (fun r => is_quote r = false) pre /\ is_quote q = true.
Proof.
  induction body as [|c body IH]; [by left|].
  destruct (is_quote c) eqn:Hc.
  - right. exists [], c, body. by repeat split.
  - destruct IH as [IH|(pre & q & rest & -> & Hpre & Hq)].
    + left. by constructor.
    + right. exists (c :: pre), q, rest. repeat split; [|done]. by constructor.
Qed.

Lemma first_occurrence (l : bytes) (c : byte) :
  c ∉ l \/ exists mid post, l = mid ++ c :: post /\ c ∉ mid.
Proof.
  induction l as [|x l IH]; [left; apply not_elem_of_nil|].
  destruct (decide (x = c)) as [->|Hne].
  - right. exists [], l. split; [done|apply not_elem_of_nil].
  - destruct IH as [IH|(mid & post & -> & Hmid)].
    + left. by apply not_elem_of_cons.
    + right. exists (x :: mid), post. split; [done|].
      apply not_elem_of_cons. split; [congruence|done].
Qed.

(** C10.  [findEventType] returns on every byte slice, without a slice
    expression going out of range.  It returns nil when the body holds no
    single or double quote, and when the first quote character found does
    not occur again after it; otherwise it returns exactly the bytes strictly
    between the first quote character and its next occurrence. *)
Theorem findEventType_total (body : bytes) :
  (exists t, findEventType body = Ret t)
  /\ (Forall (fun r => is_quote r = false) body ->
      findEventType body = Ret None)
  /\ (forall pre q rest,
        body = pre ++ q :: rest ->
        Forall (fun r => is_quote r = false) pre -> is_quote q = true ->
        q ∉ rest -> findEventType body = Ret None)
  /\ (forall pre q mid post,
        body = pre ++ q :: mid ++ q :: post ->
        Forall (fun r => is_quote r = false) pre -> is_quote q = true ->
        q ∉ mid -> findEventType body = Ret (Some mid)).
Proof.
  assert (Hnone : Forall (fun r => is_quote r = false) body ->
                  findEventType body = Ret None).
  { intros Hb. unfold findEventType.
    by rewrite findEventType_loop_none. }
  split; [|split; [done|split]].
  - destruct (body_shape body) as [Hb|(pre & q & rest & -> & Hpre & Hq)].
    + eauto.
    + destruct (first_occurrence rest q) as [Hr|(mid & post & -> & Hmid)].
      * eexists. by apply findEventType_unmatched.
      * eexists. by apply findEventType_matched.
  - intros pre q rest -> Hpre Hq Hrest. by apply findEventType_unmatched.
  - intros pre q mid post -> Hpre Hq Hmid. by apply findEventType_matched.
Qed.

(** [findEventType] on the event line of scenario S1: the bytes between the
    first two double quotes. *)
Lemma findEventType_total_witness :
  findEventType (Scenario.txn_event "T1") = Ret (Some (bytes_of "transaction")).
Proof.
  apply (proj2 (proj2 (proj2 (findEventType_total (Scenario.txn_event "T1"))))
           (bytes_of "{") dquote (bytes_of "transaction")
           (bytes_of ":{" ++ Scenario.quoted "id" ++ bytes_of ":"
            ++ Scenario.quoted "T1" ++ bytes_of "}}")).
  - reflexivity.
  - repeat constructor.
  - reflexivity.
  - apply (bool_decide_unpack _). vm_compute. exact I.
Defined.

(** ** addData *)

Lemma wrap64_small (z : Z) : int_range z -> wrap64 z = z.
Proof.
  unfold int_range, wrap64. intros Hz.
  rewrite Z.mod_small by lia. lia.
Qed.

Lemma wrap64_range (z : Z) : int_range (wrap64 z).
Proof.
  unfold int_range, wrap64.
  pose proof (Z.mod_pos_bound (z + 2 ^ 63) (2 ^ 64)). lia.
Qed.

Lemma wrap64_max : wrap64 (2 ^ 63 - 1 + 1) = - 2 ^ 63.
Proof. reflexivity. Qed.

Lemma addData_no_metadata (now : Z) (data : bytes) (b : Batch) :
  metadataBytes b = 0 -> addData now data b = (b, Some ErrMetadataUnavailable).
Proof. intros Hm. unfold addData. by rewrite decide_True. Qed.

Lemma addData_full (now : Z) (data : bytes) (b : Batch) :
  metadataBytes b <> 0 -> count b = maxSize b ->
  addData now data b = (b, Some ErrBatchFull).
Proof.
  intros Hm Hc. unfold addData.
  rewrite decide_False by done. by rewrite decide_True.
Qed.

Lemma addData_accepts (now : Z) (data : bytes) (b : Batch) :
  metadataBytes b <> 0 -> count b <> maxSize b ->
  addData now data b =
    ({| metadataBytes := metadataBytes b;
        buf := buf b ++ newline :: data;
        invocations := invocations b;
        count := wrap64 (count b + 1);
        age := if decide (count b = 0) then now else age b;
        maxSize := maxSize b; maxAge := maxAge b;
        currentlyExecutingRequestID := currentlyExecutingRequestID b |},
     None).
Proof.
  intros Hm Hc. unfold addData.
  rewrite !decide_False by done. simpl.
  by destruct (decide (count b = 0)).
Qed.

(** The three outcomes of [addData], in the order the code tests them. *)
Lemma addData_cases (now : Z) (data : bytes) (b : Batch) :
  (metadataBytes b = 0
   /\ addData now data b = (b, Some ErrMetadataUnavailable))
  \/ (metadataBytes b <> 0 /\ count b = maxSize b
      /\ addData now data b = (b, Some ErrBatchFull))
  \/ (metadataBytes b <> 0 /\ count b <> maxSize b
      /\ exists b', addData now data b = (b', None)
         /\ buf b' = buf b ++ newline :: data
         /\ count b' = wrap64 (count b + 1)
         /\ age b' = (if decide (count b = 0) then now else age b)
         /\ metadataBytes b' = metadataBytes b
         /\ invocations b' = invocations b
         /\ maxSize b' = maxSize b /\ maxAge b' = maxAge b
         /\ currentlyExecutingRequestID b' = currentlyExecutingRequestID b).
Proof.
  destruct (decide (metadataBytes b = 0)) as [Hm|Hm].
  { left. split; [done|by apply addData_no_metadata]. }
  destruct (decide (count b = maxSize b)) as [Hc|Hc].
  { right; left. repeat split; [done..|by apply addData_full]. }
  right; right. repeat split; [done..|].
  eexists. split; [by apply addData_accepts|]. by simpl.
Qed.

(** An error of [addData] leaves the state as it was. *)
Lemma addData_error (now : Z) (data : bytes) (b b' : Batch) (e : Err) :
  addData now data b = (b', Some e) ->
  b' = b /\ (e = ErrMetadataUnavailable \/ e = ErrBatchFull).
Proof.
  intros Hadd.
  destruct (addData_cases now data b)
    as [[_ E]|[(_ & _ & E)|(_ & _ & b1 & E & _)]];
    rewrite E in Hadd; inversion Hadd; auto.
Qed.

Lemma addData_preserves_inv (now : Z) (data : bytes) (b : Batch) :
  batch_inv b -> batch_inv (addData now data b).1.
Proof.
  intros [Hmeta Hempty Hent [Hci Hmi] [Hc1 Hc2] Hkeys].
  destruct (addData_cases now data b)
    as [[_ E]|[(_ & _ & E)|(Hm & Hc & b1 & E & Hb & Hcnt & Ha & Hmb & Hi
                             & Hms & Hma & Hcur)]];
    rewrite E; simpl; [by constructor..|].
  assert (Hlen : Z.of_nat (length (buf b1)) =
                 Z.of_nat (length (buf b)) + 1 + Z.of_nat (length data)).
  { rewrite Hb, length_app. simpl. lia. }
  unfold int_range in *.
  assert (Hnz : count b1 <> 0
                /\ (0 <= count b1 \/ count b1 <= maxSize b < 0)
                /\ (0 <= maxSize b -> count b1 <= maxSize b)).
  { rewrite Hcnt.
    destruct (decide (count b = 2 ^ 63 - 1)) as [Hmax|Hmax].
    - rewrite Hmax, wrap64_max. lia.
    - rewrite wrap64_small by (unfold int_range; lia). lia. }
  destruct Hnz as (Hnz & Hb1 & Hb2).
  constructor; rewrite ?Hmb, ?Hms, ?Hi; try done.
  - lia.
  - lia.
  - split; [|done]. rewrite Hcnt. apply wrap64_range.
Qed.

(** ** The invariant of the reachable states *)

Lemma NewBatch_inv (maxSize maxAge : Z) :
  int_range maxSize -> batch_inv (NewBatch maxSize maxAge).
Proof.
  intros Hr. unfold int_range in *.
  constructor; simpl; unfold int_range; try lia; try done.
Qed.

Lemma set_invocations_inv (m : gmap string Invocation) (b : Batch) :
  batch_inv b ->
  (forall key inc, m !! key = Some inc -> RequestID inc = key) ->
  batch_inv (set_invocations m b).
Proof. intros [] Hm. by constructor. Qed.

Lemma store_inv (key : string) (inc : Invocation) (b : Batch) :
  batch_inv b -> RequestID inc = key -> batch_inv (store key inc b).
Proof.
  intros Hb Hk. apply set_invocations_inv; [done|].
  intros k i. rewrite lookup_insert. case_decide.
  - intros [= <-]. congruence.
  - by apply inv_keys.
Qed.

Lemma delete_inv (key : string) (b : Batch) :
  batch_inv b -> batch_inv (set_invocations (delete key (invocations b)) b).
Proof.
  intros Hb. apply set_invocations_inv; [done|].
  intros k i. rewrite lookup_delete. case_decide; [done|].
  by apply inv_keys.
Qed.

Lemma RegisterInvocation_inv (requestID functionARN : string)
    (deadlineMs timestamp : Z) (b : Batch) :
  batch_inv b ->
  batch_inv (RegisterInvocation requestID functionARN deadlineMs timestamp b).
Proof.
  intros Hb. unfold RegisterInvocation.
  pose proof (store_inv requestID
                {| RequestID := requestID; FunctionARN := functionARN;
                   DeadlineMs := deadlineMs; Timestamp := timestamp;
                   TraceID := EmptyString; TransactionID := EmptyString;
                   TransactionObserved := false |} b Hb eq_refl) as [].
  by constructor.
Qed.

Lemma OnAgentInit_inv (transactionID traceID : string) (b : Batch) :
  batch_inv b -> batch_inv (OnAgentInit transactionID traceID b).1.
Proof.
  intros Hb. unfold OnAgentInit.
  destruct (invocations b !! currentlyExecutingRequestID b) as [i|] eqn:Hi;
    simpl; [|done].
  apply store_inv; [done|]. simpl. by apply (inv_keys b Hb).
Qed.

Lemma metadata_absent_empty (b : Batch) :
  batch_inv b -> metadataBytes b = 0 -> buf b = [] /\ count b = 0.
Proof.
  intros Hb Hm.
  assert (Hc : count b = 0).
  { destruct (decide (count b = 0)) as [|Hc]; [done|].
    by destruct (inv_entries b Hb Hc). }
  split; [|done].
  destruct (inv_empty b Hb Hc) as [Hlen _].
  apply nil_length_inv. lia.
Qed.

Lemma AddAgentData_metadata_inv (line : bytes) (b : Batch) :
  batch_inv b -> batch_inv (AddAgentData_metadata line b).
Proof.
  intros Hb. unfold AddAgentData_metadata.
  destruct (decide (metadataBytes b = 0)) as [Hm|Hm]; [|done].
  destruct (metadata_absent_empty b Hb Hm) as [Hbuf Hc].
  destruct Hb as [Hmeta Hempty Hent Hint Hcount Hkeys].
  constructor; simpl; rewrite ?Hbuf; simpl; try done.
  - lia.
  - intros _. split; [done|]. by apply Hempty.
Qed.

Section Invariant.
Context `{Externals}.

Lemma findEventType_returns (line : bytes) :
  exists t, findEventType line = Ret t.
Proof.
  unfold findEventType.
  destruct (body_shape line) as [Hb|(pre & q & rest & -> & Hpre & Hq)].
  - rewrite findEventType_loop_none by done. simpl. eauto.
  - destruct (first_occurrence rest q) as [Hr|(mid & post & -> & Hmid)].
    + eexists. by apply findEventType_unmatched.
    + eexists. by apply findEventType_matched.
Qed.

(** One turn of the loop either marks the invocation under [key] and leaves
    everything else alone, or is [addData]. *)
Lemma AddAgentData_event_cases (now : Z) (key : string) (line : bytes)
    (b : Batch) (inc : Invocation) :
  invocations b !! key = Some inc ->
  (observes inc line = true
   /\ AddAgentData_event now key line b
      = Ret (store key (set_TransactionObserved true inc) b, None))
  \/ (observes inc line = false
      /\ AddAgentData_event now key line b = Ret (addData now line b)).
Proof.
  intros Hinc. unfold AddAgentData_event, observes, is_transaction_of.
  rewrite Hinc.
  destruct (NeedProxyTransaction inc) eqn:Hneed; simpl; [|by right].
  destruct (findEventType_returns line) as [t Ht]. rewrite Ht. simpl.
  assert (Ht' : string_of (slice_bytes t) = "transaction"%string
                <-> Ret (A := slice) t = Ret (Some (bytes_of "transaction"))).
  { split.
    - intros Hs. f_equal.
      assert (slice_bytes t = bytes_of "transaction") as Hb.
      { unfold string_of, bytes_of in *. rewrite <- Hs.
        by rewrite String.list_byte_of_string_of_list_byte. }
      destruct t as [t|]; simpl in Hb; [by rewrite Hb|done].
    - intros [= ->]. reflexivity. }
  destruct (decide (string_of (slice_bytes t) = "transaction"%string))
    as [Hs|Hs].
  - rewrite (bool_decide_eq_true_2 _ (proj1 Ht' Hs)). simpl.
    unfold NeedProxyTransaction in Hneed.
    apply andb_prop in Hneed as [Hid _].
    apply negb_true_iff, bool_decide_eq_false in Hid.
    destruct (decide (TransactionID inc = gjson_Str line "transaction.id"))
      as [Heq|Hne].
    + left. rewrite (bool_decide_eq_true_2 _ (eq_sym Heq)).
      rewrite (bool_decide_eq_true_2 _ Heq).
      rewrite bool_decide_eq_false_2 by congruence. done.
    + right. rewrite (bool_decide_eq_false_2 _ Hne).
      rewrite bool_decide_eq_false_2 by congruence.
      by rewrite andb_false_r.
  - right. rewrite bool_decide_eq_false_2; [done|]. by rewrite <- Ht'.
Qed.

Lemma AddAgentData_event_inv (now : Z) (key : string) (line : bytes)
    (b b' : Batch) (e : option Err) :
  batch_inv b -> AddAgentData_event now key line b = Ret (b', e) ->
  batch_inv b'.
Proof.
  intros Hb Hev.
  destruct (invocations b !! key) as [inc|] eqn:Hinc.
  - destruct (AddAgentData_event_cases now key line b inc Hinc)
      as [[_ E]|[_ E]]; rewrite E in Hev.
    + injection Hev as <- <-.
      apply store_inv; [done|]. simpl. by apply (inv_keys b Hb).
    + injection Hev as Hadd.
      replace b' with (addData now line b).1 by (by rewrite Hadd).
      by apply addData_preserves_inv.
  - unfold AddAgentData_event in Hev. by rewrite Hinc in Hev.
Qed.

Lemma AddAgentData_loop_inv (now : Z) (key : string) (events : list bytes)
    (b b' : Batch) (e : option Err) :
  batch_inv b -> AddAgentData_loop now key events b = Ret (b', e) ->
  batch_inv b'.
Proof.
  revert b. induction events as [|line events IH]; intros b Hb; simpl.
  - by intros [= <- <-].
  - destruct (AddAgentData_event now key line b) as [[b1 [e1|]]|] eqn:Hev;
      simpl; [| |done].
    + intros [= <- <-]. by eapply AddAgentData_event_inv.
    + apply IH. by eapply AddAgentData_event_inv.
Qed.

Lemma AddAgentData_inv (now : Z) (data : bytes) (encoding : string)
    (b b' : Batch) (e : option Err) :
  batch_inv b -> AddAgentData now data encoding b = Ret (b', e) ->
  batch_inv b'.
Proof.
  intros Hb. unfold AddAgentData.
  destruct (GetUncompressedBytes data encoding) as [raw|err];
    [|by intros [= <- <-]].
  destruct (Split raw) as [|line0 events]; [by intros [= <- <-]|].
  destruct (invocations b !! currentlyExecutingRequestID b);
    [|by intros [= <- <-]].
  apply AddAgentData_loop_inv. by apply AddAgentData_metadata_inv.
Qed.

Lemma finalizeInvocation_inv (now : Z) (reqID status : string) (b : Batch) :
  batch_inv b -> batch_inv (finalizeInvocation now reqID status b).1.
Proof.
  intros Hb. unfold finalizeInvocation.
  destruct (invocations b !! reqID) as [inc|]; [|done].
  destruct (Finalize inc status now) as [proxyTxn|].
  - pose proof (addData_preserves_inv now proxyTxn b Hb) as Hadd.
    destruct (addData now proxyTxn b) as [b1 e1]. simpl in *.
    by apply delete_inv.
  - simpl. by apply delete_inv.
Qed.

Lemma OnShutdown_loop_inv (now : Z) (status : string) (order : list string)
    (b : Batch) :
  batch_inv b -> batch_inv (OnShutdown_loop now status order b).1.
Proof.
  revert b. induction order as [|key order IH]; intros b Hb; simpl; [done|].
  destruct (invocations b !! key) as [inc|]; [|by apply IH].
  pose proof (finalizeInvocation_inv now (RequestID inc) status b Hb) as Hf.
  destruct (finalizeInvocation now (RequestID inc) status b) as [b1 [e1|]];
    simpl in *; [done|by apply IH].
Qed.

Lemma Reset_returns (b : Batch) :
  0 <= metadataBytes b <= Z.of_nat (length (buf b)) ->
  Reset b =
    Ret {| metadataBytes := metadataBytes b;
           buf := take (Z.to_nat (metadataBytes b)) (buf b);
           invocations := invocations b; count := 0; age := zeroTime;
           maxSize := maxSize b; maxAge := maxAge b;
           currentlyExecutingRequestID := currentlyExecutingRequestID b |}.
Proof.
  intros Hm. unfold Reset, Truncate. simpl.
  destruct (decide (metadataBytes b = 0)) as [Hz|Hz]; simpl.
  - by replace (take (Z.to_nat (metadataBytes b)) (buf b)) with (@nil byte)
      by (by rewrite Hz).
  - by rewrite decide_False by lia.
Qed.

Lemma Reset_inv (b b' : Batch) :
  batch_inv b -> Reset b = Ret b' -> batch_inv b'.
Proof.
  intros Hb. rewrite Reset_returns by apply (inv_metadata b Hb).
  intros [= <-].
  destruct Hb as [Hmeta Hempty Hent [Hci Hmi] [Hc1 Hc2] Hkeys].
  unfold int_range in *.
  constructor; simpl; unfold int_range; rewrite ?length_take; try done; lia.
Qed.

Lemma exec_inv (c : Call) (b b' : Batch) :
  batch_inv b -> exec c b = Ret b' -> batch_inv b'.
Proof.
  intros Hb. destruct c; simpl.
  - intros [= <-]. by apply RegisterInvocation_inv.
  - intros [= <-]. by apply OnAgentInit_inv.
  - destruct (AddAgentData now data encoding b) as [[b1 e1]|] eqn:Hadd;
      simpl; [|done].
    intros [= <-]. by eapply AddAgentData_inv.
  - intros [= <-]. by apply finalizeInvocation_inv.
  - intros [= <-]. by apply OnShutdown_loop_inv.
  - intros [= <-]. by apply addData_preserves_inv.
  - by apply Reset_inv.
Qed.

Lemma reachable_inv (maxSize maxAge : Z) (b : Batch) :
  reachable maxSize maxAge b -> batch_inv b.
Proof.
  induction 1 as [Hr|b b' c _ IH _ Hexec].
  - by apply NewBatch_inv.
  - by eapply exec_inv.
Qed.

Lemma calls_inv (b b' : Batch) : calls b b' -> batch_inv b -> batch_inv b'.
Proof.
  induction 1 as [|b b1 b2 c _ Hexec _ IH]; [done|].
  intros Hb. apply IH. by eapply exec_inv.
Qed.

End Invariant.

(** ** The claims about addData, Reset and finalizeInvocation *)

(** C5.  [addData], and with it [AddLambdaData], returns
    [ErrMetadataUnavailable] when [metadataBytes] is zero and, the metadata
    being present, [ErrBatchFull] when [count] equals [maxSize]; both leave
    every field of the batch as it was.  Otherwise it appends a newline and
    the raw bytes of the event, increments [count] by one (in [int]
    arithmetic, so without overflow below the largest [int]), and sets [age]
    to the time of the call exactly when [count] was zero, which in a state
    satisfying the invariant of the reachable states is when the buffer holds
    nothing after the metadata.  The other fields keep their values. *)
Theorem addData_contract (now : Z) (data : bytes) (b : Batch) :
  AddLambdaData now data b = addData now data b
  /\ (metadataBytes b = 0 ->
      addData now data b = (b, Some ErrMetadataUnavailable))
  /\ (metadataBytes b <> 0 -> count b = maxSize b ->
      addData now data b = (b, Some ErrBatchFull))
  /\ (metadataBytes b <> 0 -> count b <> maxSize b ->
      exists b',
        addData now data b = (b', None)
        /\ buf b' = buf b ++ [newline] ++ data
        /\ count b' = wrap64 (count b + 1)
        /\ (- 2 ^ 63 <= count b < 2 ^ 63 - 1 -> count b' = count b + 1)
        /\ age b' = (if decide (count b = 0) then now else age b)
        /\ metadataBytes b' = metadataBytes b
        /\ invocations b' = invocations b
        /\ maxSize b' = maxSize b /\ maxAge b' = maxAge b
        /\ currentlyExecutingRequestID b' = currentlyExecutingRequestID b)
  /\ (batch_inv b ->
      (count b = 0 <-> Z.of_nat (length (buf b)) = metadataBytes b)).
Proof.
  split; [done|].
  split; [apply addData_no_metadata|].
  split; [apply addData_full|].
  split.
  - intros Hm Hc.
    destruct (addData_cases now data b)
      as [[? _]|[(_ & ? & _)|(_ & _ & b' & E & Hb & Hcnt & Hrest)]];
      [done..|].
    exists b'. repeat split; try done; try apply Hrest.
    intros Hr. rewrite Hcnt. apply wrap64_small. unfold int_range. lia.
  - intros Hinv. split.
    + intros Hc. by apply (inv_empty b Hinv).
    + intros Hlen. destruct (decide (count b = 0)) as [|Hc]; [done|].
      destruct (inv_entries b Hinv Hc). lia.
Qed.

(** Scenario S3 with [maxSize = 2]: two entries are accepted, the third is
    refused with [ErrBatchFull] and the buffer stays as it was after the
    second. *)
Lemma addData_contract_witness :
  let a := bytes_of "a" in
  let b := bytes_of "b" in
  let c := bytes_of "c" in
  let b1 := (AddLambdaData 5 a (Scenario.batch_with_metadata 2)).1 in
  let b2 := (AddLambdaData 6 b b1).1 in
  (addData 5 a (NewBatch 2 1000)
   = (NewBatch 2 1000, Some ErrMetadataUnavailable))
  /\ (exists b', addData 5 a (Scenario.batch_with_metadata 2) = (b', None)
        /\ buf b' = Scenario.meta1 ++ [newline] ++ a
        /\ count b' = 1 /\ age b' = 5)
  /\ (buf b2 = Scenario.meta1 ++ [newline] ++ a ++ [newline] ++ b
      /\ count b2 = 2 /\ age b2 = 5)
  /\ addData 7 c b2 = (b2, Some ErrBatchFull).
Proof.
  intros a b c b1 b2.
  split; [|split; [|split]].
  - by apply (addData_contract 5 a (NewBatch 2 1000)).
  - destruct (proj1 (proj2 (proj2 (proj2
                (addData_contract 5 a (Scenario.batch_with_metadata 2)))))
                ltac:(done) ltac:(done))
      as (b' & E & Hb & _ & Hc & Ha & _).
    exists b'. repeat split; [done|done|by apply Hc|done].
  - by vm_compute.
  - by apply (addData_contract 7 c b2).
Defined.

(** C7.  In a state whose metadata length lies within the buffer, as it does
    in every reachable state, [Reset] returns; afterwards the buffer is its
    former prefix of [metadataBytes] bytes and has that length, [count] is
    zero and [age] is the zero time, and [metadataBytes], [invocations],
    [currentlyExecutingRequestID], [maxSize] and [maxAge] are unchanged. *)
Theorem Reset_postcondition (b : Batch) :
  0 <= metadataBytes b <= Z.of_nat (length (buf b)) ->
  exists b',
    Reset b = Ret b'
    /\ Z.of_nat (length (buf b')) = metadataBytes b
    /\ buf b' = take (Z.to_nat (metadataBytes b)) (buf b)
    /\ count b' = 0 /\ age b' = zeroTime
    /\ metadataBytes b' = metadataBytes b
    /\ invocations b' = invocations b
    /\ currentlyExecutingRequestID b' = currentlyExecutingRequestID b
    /\ maxSize b' = maxSize b /\ maxAge b' = maxAge b.
Proof.
  intros Hm. eexists. split; [by apply Reset_returns|]. simpl.
  repeat split. rewrite length_take. lia.
Qed.

Lemma Reset_postcondition_witness :
  exists b',
    Reset (AddLambdaData 5 (bytes_of "a") (Scenario.batch_with_metadata 2)).1
    = Ret b'
    /\ Z.of_nat (length (buf b')) = 10
    /\ buf b' = Scenario.meta1
    /\ count b' = 0 /\ age b' = zeroTime
    /\ metadataBytes b' = 10
    /\ invocations b' = ∅
    /\ currentlyExecutingRequestID b' = EmptyString
    /\ maxSize b' = 2 /\ maxAge b' = 1000.
Proof.
  apply (Reset_postcondition
           (AddLambdaData 5 (bytes_of "a") (Scenario.batch_with_metadata 2)).1).
  by vm_compute.
Defined.

(** C9.  When the invocation under [reqID] needs a proxy transaction and
    [addData] refuses it (the metadata is missing, or the batch is full),
    [finalizeInvocation], and so [OnLambdaLogRuntimeDone] and an [OnShutdown]
    that reaches it, returns that error and still removes the invocation from
    the map; nothing is appended, and a later finalization of [reqID] finds no
    invocation, so the proxy transaction is lost. *)
Theorem finalizeInvocation_deletes_on_error `{Externals} (now : Z)
    (reqID status : string) (b : Batch) (inc : Invocation) :
  invocations b !! reqID = Some inc ->
  NeedProxyTransaction inc = true ->
  metadataBytes b = 0 \/ count b = maxSize b ->
  let b' := set_invocations (delete reqID (invocations b)) b in
  let e := if decide (metadataBytes b = 0) then ErrMetadataUnavailable
           else ErrBatchFull in
  finalizeInvocation now reqID status b = (b', Some e)
  /\ OnLambdaLogRuntimeDone now reqID status b = (b', Some e)
  /\ (RequestID inc = reqID ->
      forall order, OnShutdown now status (reqID :: order) b = (b', Some e))
  /\ invocations b' !! reqID = None
  /\ buf b' = buf b /\ count b' = count b
  /\ (forall now' status',
        finalizeInvocation now' reqID status' b'
        = (b', Some (ErrNoInvocation reqID))).
Proof.
  intros Hinc Hneed Hrefuse b' e.
  assert (Hfin : finalizeInvocation now reqID status b = (b', Some e)).
  { unfold finalizeInvocation, Finalize. rewrite Hinc, Hneed.
    subst b' e. destruct (decide (metadataBytes b = 0)) as [Hm|Hm].
    - by rewrite addData_no_metadata.
    - destruct Hrefuse as [?|Hc]; [done|]. by rewrite addData_full. }
  split; [done|]. split; [done|]. split.
  { intros Hid order. unfold OnShutdown. simpl.
    by rewrite Hinc, Hid, Hfin. }
  assert (Hgone : invocations b' !! reqID = None).
  { subst b'. simpl. apply lookup_delete_eq. }
  repeat split; [done|].
  intros now' status'. unfold finalizeInvocation. by rewrite Hgone.
Qed.

(** Scenario S2 before any metadata has come: the finalization of [R2] fails
    with [ErrMetadataUnavailable], and [R2] is gone all the same. *)
Lemma finalizeInvocation_deletes_on_error_witness :
  let b := Scenario.announced 2 in
  let b' := set_invocations ∅ b in
  OnLambdaLogRuntimeDone 350 "R2" "timeout" b
  = (b', Some ErrMetadataUnavailable)
  /\ OnShutdown 350 "timeout" ["R2"] b = (b', Some ErrMetadataUnavailable)
  /\ buf b' = []
  /\ OnLambdaLogRuntimeDone 360 "R2" "timeout" b'
     = (b', Some (ErrNoInvocation "R2")).
Proof.
  intros b b'.
  destruct (finalizeInvocation_deletes_on_error 350 "R2" "timeout" b
              {| RequestID := "R2"; FunctionARN := "arn:aws:lambda:fn";
                 DeadlineMs := 3000; Timestamp := 100; TraceID := "Tr2";
                 TransactionID := "T2"; TransactionObserved := false |})
    as (_ & Hdone & Hshut & _ & Hbuf & _ & Hagain).
  - by vm_compute.
  - by vm_compute.
  - left. by vm_compute.
  - change (set_invocations (delete "R2" (invocations b)) b) with b' in *.
    split; [exact Hdone|].
    split; [exact (Hshut eq_refl [])|].
    split; [reflexivity|].
    exact (Hagain 360 "timeout"%string).
Defined.

(** ** AddAgentData *)

Section AgentData.
Context `{Externals}.

Lemma observes_unfold (inc : Invocation) (line : bytes) :
  observes inc line = true <->
  TransactionID inc <> EmptyString
  /\ TransactionObserved inc = false
  /\ findEventType line = Ret (Some (bytes_of "transaction"))
  /\ gjson_Str line "transaction.id" = TransactionID inc.
Proof.
  unfold observes, NeedProxyTransaction, is_transaction_of.
  rewrite !andb_true_iff, !negb_true_iff, !bool_decide_eq_true,
    bool_decide_eq_false.
  tauto.
Qed.

Lemma AddAgentData_unfold (now : Z) (data raw line0 : bytes)
    (encoding : string) (events : list bytes) (b : Batch) (inc : Invocation) :
  GetUncompressedBytes data encoding = inl raw ->
  Split raw = line0 :: events ->
  invocations b !! currentlyExecutingRequestID b = Some inc ->
  AddAgentData now data encoding b
  = AddAgentData_loop now (currentlyExecutingRequestID b) events
      (AddAgentData_metadata line0 b).
Proof.
  intros Hraw Hsplit Hinc. unfold AddAgentData.
  by rewrite Hraw, Hsplit, Hinc.
Qed.

(** C2, as the code has it.  A call of [AddAgentData] whose decoded body
    splits into a metadata line and event lines, made while the current
    request has an invocation, runs the loop over the event lines in their
    order, up to the first line that [addData] refuses.
    At a line where the invocation under the current request still needs a
    proxy transaction ([TransactionID] not empty, [TransactionObserved]
    false), the first quoted key of the line is "transaction" and its
    [transaction.id] is the invocation's [TransactionID], the turn sets
    [TransactionObserved] of that invocation to true and appends nothing:
    the other fields of the invocation, the other invocations, the buffer,
    [count] and every other field of the batch stay as they were, and the
    loop goes on with the next line.
    Every other line is handed to [addData].  When the batch has its metadata
    and is not full the line is appended after a newline, [count] grows by
    one, and the loop goes on with the next line.  When the metadata is
    missing or the batch is full nothing is appended, the call returns that
    error at once and leaves the batch as it was: the lines after it are not
    looked at, so a transaction among them is neither appended nor
    observed. *)
Theorem AddAgentData_event_lines (now : Z) (data raw line0 : bytes)
    (encoding : string) (events : list bytes) (b : Batch) (inc0 : Invocation) :
  GetUncompressedBytes data encoding = inl raw ->
  Split raw = line0 :: events ->
  invocations b !! currentlyExecutingRequestID b = Some inc0 ->
  let key := currentlyExecutingRequestID b in
  AddAgentData now data encoding b
  = AddAgentData_loop now key events (AddAgentData_metadata line0 b)
  /\ (forall b1, AddAgentData_loop now key [] b1 = Ret (b1, None))
  /\ (forall b1 inc line rest,
        invocations b1 !! key = Some inc ->
        observes inc line = true ->
        let b2 := store key (set_TransactionObserved true inc) b1 in
        AddAgentData_event now key line b1 = Ret (b2, None)
        /\ AddAgentData_loop now key (line :: rest) b1
           = AddAgentData_loop now key rest b2
        /\ invocations b2 !! key = Some (set_TransactionObserved true inc)
        /\ (exists inc',
              invocations b2 !! key = Some inc'
              /\ TransactionObserved inc' = true
              /\ NeedProxyTransaction inc' = false
              /\ TransactionID inc' = TransactionID inc
              /\ TraceID inc' = TraceID inc
              /\ RequestID inc' = RequestID inc
              /\ FunctionARN inc' = FunctionARN inc
              /\ DeadlineMs inc' = DeadlineMs inc
              /\ Timestamp inc' = Timestamp inc)
        /\ (forall k, k <> key -> invocations b2 !! k = invocations b1 !! k)
        /\ buf b2 = buf b1 /\ count b2 = count b1 /\ age b2 = age b1
        /\ metadataBytes b2 = metadataBytes b1
        /\ maxSize b2 = maxSize b1 /\ maxAge b2 = maxAge b1
        /\ currentlyExecutingRequestID b2 = currentlyExecutingRequestID b1)
  /\ (forall b1 inc line rest,
        invocations b1 !! key = Some inc ->
        observes inc line = false ->
        AddAgentData_event now key line b1 = Ret (addData now line b1)
        /\ AddAgentData_loop now key (line :: rest) b1
           = (let '(b2, err) := addData now line b1 in
              match err with
              | None => AddAgentData_loop now key rest b2
              | Some e => Ret (b2, Some e)
              end)
        /\ (metadataBytes b1 <> 0 -> count b1 <> maxSize b1 ->
            exists b2, addData now line b1 = (b2, None)
              /\ AddAgentData_loop now key (line :: rest) b1
                 = AddAgentData_loop now key rest b2
              /\ buf b2 = buf b1 ++ [newline] ++ line
              /\ count b2 = wrap64 (count b1 + 1)
              /\ age b2 = (if decide (count b1 = 0) then now else age b1)
              /\ metadataBytes b2 = metadataBytes b1
              /\ invocations b2 = invocations b1)
        /\ (metadataBytes b1 = 0 \/ count b1 = maxSize b1 ->
            AddAgentData_loop now key (line :: rest) b1
            = Ret (b1, Some (if decide (metadataBytes b1 = 0)
                             then ErrMetadataUnavailable else ErrBatchFull)))).
Proof.
  intros Hraw Hsplit Hinc key.
  split; [by eapply AddAgentData_unfold|].
  split; [done|]. split.
  - intros b1 inc line rest Hk Hobs b2.
    destruct (AddAgentData_event_cases now key line b1 inc Hk)
      as [[_ E]|[E _]]; [|congruence].
    split; [done|]. split; [by simpl; rewrite E|].
    split; [apply lookup_insert_eq|]. split.
    { exists (set_TransactionObserved true inc).
      split; [apply lookup_insert_eq|]. split; [done|].
      split; [|done]. unfold NeedProxyTransaction.
      replace (TransactionObserved (set_TransactionObserved true inc))
        with true by done.
      apply andb_false_r. }
    split; [|done].
    intros k Hne. by apply lookup_insert_ne.
  - intros b1 inc line rest Hk Hobs.
    destruct (AddAgentData_event_cases now key line b1 inc Hk)
      as [[E _]|[_ E]]; [congruence|].
    assert (Hloop : AddAgentData_loop now key (line :: rest) b1
                    = (let '(b2, err) := addData now line b1 in
                       match err with
                       | None => AddAgentData_loop now key rest b2
                       | Some e => Ret (b2, Some e)
                       end)).
    { simpl. rewrite E. simpl.
      by destruct (addData now line b1) as [b2 [e|]]. }
    split; [done|]. split; [done|]. split.
    + intros Hm Hc. eexists. split; [by apply addData_accepts|].
      split; [|done]. rewrite Hloop. by rewrite addData_accepts.
    + intros Hrefuse. rewrite Hloop.
      destruct (decide (metadataBytes b1 = 0)) as [Hm|Hm].
      * by rewrite addData_no_metadata.
      * destruct Hrefuse as [?|Hc]; [done|]. by rewrite addData_full.
Qed.

End AgentData.

(** The agent's body of scenario S1 against the announced invocation: the
    event line is the awaited transaction, so it is not appended, and the
    invocation is marked. *)
Lemma AddAgentData_event_lines_witness :
  let b := Scenario.S1_announced 10 in
  let inc := {| RequestID := "R1"; FunctionARN := "arn:aws:lambda:fn";
                DeadlineMs := 3000; Timestamp := 100; TraceID := "Tr1";
                TransactionID := "T1"; TransactionObserved := false |} in
  let b1 := AddAgentData_metadata Scenario.meta1 b in
  let b2 := store "R1" (set_TransactionObserved true inc) b1 in
  AddAgentData 150 Scenario.S1_body "identity" b = Ret (b2, None)
  /\ buf b2 = Scenario.meta1 /\ count b2 = 0
  /\ exists inc',
       invocations b2 !! "R1"%string = Some inc'
       /\ TransactionObserved inc' = true
       /\ NeedProxyTransaction inc' = false.
Proof.
  intros b inc b1 b2.
  destruct (AddAgentData_event_lines 150 Scenario.S1_body Scenario.S1_body
              Scenario.meta1 "identity" [Scenario.txn_event "T1"] b inc)
    as (Hcall & Hnil & Hobs & _).
  - reflexivity.
  - by vm_compute.
  - by vm_compute.
  - destruct (Hobs b1 inc (Scenario.txn_event "T1") [])
      as (_ & Hloop & _ & (inc' & Hlook & Hflag & Hneed & _) & _ & Hbuf
          & Hcount & _).
    + by vm_compute.
    + by vm_compute.
    + split; [|split; [|split]].
      * rewrite Hcall. etransitivity; [exact Hloop|]. apply Hnil.
      * etransitivity; [exact Hbuf|reflexivity].
      * etransitivity; [exact Hcount|reflexivity].
      * exists inc'. split; [exact Hlook|]. split; [exact Hflag|exact Hneed].
Defined.

(** C2 as the specification states it does not hold: the loop stops at the
    first line that [addData] refuses.  With a size limit of one and the
    invocation of scenario S1 waiting for transaction [T1], the agent sends
    the metadata, two spans and the transaction [T1].  The first span is
    appended and fills the batch; the second span is refused and the call
    returns [ErrBatchFull] there.  The second span is not appended, and the
    transaction is not reached: it is not observed, and the invocation still
    needs a proxy transaction. *)
Lemma AddAgentData_stops_at_refusal :
  let b := Scenario.S1_announced 1 in
  let span1 := Scenario.span_event "S1" in
  let span2 := Scenario.span_event "S2" in
  let txn := Scenario.txn_event "T1" in
  let body := Scenario.meta1 ++ [newline] ++ span1 ++ [newline] ++ span2
              ++ [newline] ++ txn in
  Split body = [Scenario.meta1; span1; span2; txn]
  /\ (exists inc,
        invocations b !! currentlyExecutingRequestID b = Some inc
        /\ NeedProxyTransaction inc = true
        /\ observes inc span1 = false /\ observes inc span2 = false
        /\ observes inc txn = true)
  /\ exists b',
       AddAgentData 150 body "identity" b = Ret (b', Some ErrBatchFull)
       /\ ToAPMData b' = Scenario.meta1 ++ [newline] ++ span1
       /\ Count b' = 1
       /\ exists inc',
            invocations b' !! currentlyExecutingRequestID b' = Some inc'
            /\ TransactionObserved inc' = false
            /\ NeedProxyTransaction inc' = true.
Proof.
  intros b span1 span2 txn body.
  split; [by vm_compute|]. split.
  - eexists. split; [by vm_compute|]. by vm_compute.
  - eexists. split; [by vm_compute|]. split; [by vm_compute|].
    split; [by vm_compute|].
    eexists. split; [by vm_compute|]. by vm_compute.
Qed.

(** ** Scenario S1 *)

(** C1, as the code has it.  In scenario S1 the event of the agent is the
    transaction the invocation waits for: [AddAgentData] marks the invocation
    and drops the line, so after [OnLambdaLogRuntimeDone] the buffer is the
    metadata line alone, [Count] is zero, no proxy transaction is synthesized
    or appended, and the invocation is gone.  This holds for every size and
    age limit, for every ARN, deadline and time, and for every JSON lookup
    that finds the id [T1] in the event. *)
Theorem S1_happy_path `{Externals}
    (maxSize maxAge deadlineMs timestamp now now' : Z) (functionARN : string) :
  gjson_Str (Scenario.txn_event "T1") "transaction.id" = "T1"%string ->
  let b1 := RegisterInvocation "R1" functionARN deadlineMs timestamp
              (NewBatch maxSize maxAge) in
  let b2 := (OnAgentInit "T1" "Tr1" b1).1 in
  exists b3 b4 inc,
    (OnAgentInit "T1" "Tr1" b1).2 = None
    /\ AddAgentData now Scenario.S1_body "identity" b2 = Ret (b3, None)
    /\ invocations b3 !! "R1"%string = Some inc
    /\ TransactionObserved inc = true
    /\ Finalize inc "success" now' = None
    /\ OnLambdaLogRuntimeDone now' "R1" "success" b3 = (b4, None)
    /\ buf b4 = Scenario.meta1
    /\ Count b4 = 0
    /\ invocations b4 = ∅.
Proof.
  intros Hid b1 b2.
  set (inc := {| RequestID := "R1"; FunctionARN := functionARN;
                 DeadlineMs := deadlineMs; Timestamp := timestamp;
                 TraceID := "Tr1"; TransactionID := "T1";
                 TransactionObserved := false |}).
  set (b2' := AddAgentData_metadata Scenario.meta1 b2).
  assert (Hinc : invocations b2' !! "R1"%string = Some inc) by by vm_compute.
  assert (Hobs : observes inc (Scenario.txn_event "T1") = true).
  { apply observes_unfold.
    split; [done|]. split; [done|]. split; [by vm_compute|done]. }
  destruct (AddAgentData_event_cases now "R1" (Scenario.txn_event "T1")
              b2' inc Hinc) as [[_ E]|[E _]]; [|congruence].
  exists (store "R1" (set_TransactionObserved true inc) b2'),
    (set_invocations ∅ (store "R1" (set_TransactionObserved true inc) b2')),
    (set_TransactionObserved true inc).
  split; [by vm_compute|]. split.
  { rewrite (AddAgentData_unfold now Scenario.S1_body Scenario.S1_body
               Scenario.meta1 "identity" [Scenario.txn_event "T1"] b2 inc);
      [|by vm_compute..].
    change (currentlyExecutingRequestID b2) with "R1"%string.
    fold b2'. simpl. by rewrite E. }
  split; [apply lookup_insert_eq|]. split; [done|]. split; [done|].
  split; [|split; [by vm_compute|split; [done|]]].
  - unfold OnLambdaLogRuntimeDone, finalizeInvocation.
    replace (invocations
               (store "R1" (set_TransactionObserved true inc) b2')
             !! "R1"%string)
      with (Some (set_TransactionObserved true inc))
      by (symmetry; apply lookup_insert_eq).
    change (Finalize (set_TransactionObserved true inc) "success" now')
      with (@None bytes).
    by vm_compute.
  - by vm_compute.
Qed.

Lemma S1_happy_path_witness :
  exists b3 b4 inc,
    (OnAgentInit "T1" "Tr1"
       (RegisterInvocation "R1" "arn:aws:lambda:fn" 3000 100
          (NewBatch 10 1000))).2 = None
    /\ AddAgentData 150 Scenario.S1_body "identity" (Scenario.S1_announced 10)
       = Ret (b3, None)
    /\ invocations b3 !! "R1"%string = Some inc
    /\ TransactionObserved inc = true
    /\ Finalize inc "success" 200 = None
    /\ OnLambdaLogRuntimeDone 200 "R1" "success" b3 = (b4, None)
    /\ buf b4 = Scenario.meta1
    /\ Count b4 = 0
    /\ invocations b4 = ∅.
Proof.
  apply (S1_happy_path 10 1000 3000 100 150 200 "arn:aws:lambda:fn").
  by vm_compute.
Defined.

(** C1 as the specification states it does not hold: in scenario S1 the
    buffer does not end with the agent's transaction and [Count] is not one. *)
Lemma S1_transaction_line_dropped :
  AddAgentData 150 Scenario.S1_body "identity" (Scenario.S1_announced 10)
  = Ret (Scenario.S1_after_agent 10, None)
  /\ OnLambdaLogRuntimeDone 200 "R1" "success" (Scenario.S1_after_agent 10)
     = (Scenario.S1_final 10, None)
  /\ buf (Scenario.S1_final 10) = Scenario.meta1
  /\ Count (Scenario.S1_final 10) = 0
  /\ ~ (buf (Scenario.S1_final 10)
        = Scenario.meta1 ++ [newline] ++ Scenario.txn_event "T1"
        /\ Count (Scenario.S1_final 10) = 1).
Proof.
  split; [by vm_compute|]. split; [by vm_compute|].
  split; [by vm_compute|]. split; [by vm_compute|].
  intros [_ Hcount]. by vm_compute in Hcount.
Qed.

(** ** The agent's transaction and the proxy transaction *)


Lemma frame_app (l1 l2 : list bytes) : frame (l1 ++ l2) = frame l1 ++ frame l2.
Proof. unfold frame. by rewrite map_app, concat_app. Qed.

Lemma addData_appends (now : Z) (line : bytes) (b b' : Batch) :
  addData now line b = (b', None) ->
  buf b' = buf b ++ newline :: line /\ invocations b' = invocations b.
Proof.
  intros Hadd.
  destruct (addData_cases now line b)
    as [[_ E]|[(_ & _ & E)|(_ & _ & b1 & E & Hb & _ & _ & _ & Hi & _)]];
    rewrite E in Hadd; inversion Hadd; subst; auto.
Qed.

Lemma addData_invocations (now : Z) (line : bytes) (b : Batch) :
  invocations (addData now line b).1 = invocations b.
Proof.
  destruct (addData_cases now line b)
    as [[_ E]|[(_ & _ & E)|(_ & _ & b1 & E & _ & _ & _ & _ & Hi & _)]];
    by rewrite E.
Qed.

(** *** The lines of the output *)

Lemma Split_nonempty (raw : bytes) : Split raw <> [].
Proof.
  destruct raw as [|c raw]; simpl; [done|].
  destruct (decide (c = newline)); [done|]. by destruct (Split raw).
Qed.












Section Exclusivity.
Context `{Externals}.






End Exclusivity.




(** ** OnShutdown *)

Section Shutdown.
Context `{Externals}.

Lemma foldr_delete_lookup (m : gmap string Invocation) (order : list string)
    (key : string) :
  foldr delete m order !! key = if decide (key ∈ order) then None else m !! key.
Proof.
  induction order as [|k order IH].
  - destruct (decide (key ∈ [])) as [Hin|_]; [|done].
    by apply elem_of_nil in Hin.
  - change (foldr delete m (k :: order))
      with (delete k (foldr delete m order)).
    rewrite lookup_delete, IH.
    destruct (decide (k = key)) as [->|Hne];
      destruct (decide (key ∈ order)) as [Hin|Hout];
      destruct (decide (key ∈ _ :: order)) as [Hin'|Hout'];
      try done; exfalso.
    + apply Hout'. apply list_elem_of_here.
    + apply Hout'. apply list_elem_of_here.
    + apply Hout'. by apply list_elem_of_further.
    + apply elem_of_cons in Hin' as [?|?]; [congruence|done].
Qed.

Lemma foldr_delete_all (m : gmap string Invocation) (order : list string) :
  order ≡ₚ (map_to_list m).*1 -> foldr delete m order = ∅.
Proof.
  intros Hperm. apply map_eq. intros key.
  rewrite foldr_delete_lookup, lookup_empty.
  destruct (decide (key ∈ order)) as [|Hout]; [done|].
  destruct (m !! key) as [inc|] eqn:Hk; [|done].
  exfalso. apply Hout. rewrite Hperm.
  apply list_elem_of_fmap. exists (key, inc). split; [done|].
  by apply elem_of_map_to_list.
Qed.

Lemma proxies_delete (now : Z) (status key : string)
    (m : gmap string Invocation) (order : list string) :
  key ∉ order ->
  proxies now status (delete key m) order = proxies now status m order.
Proof.
  intros Hout. unfold proxies.
  induction order as [|k order IH]; [done|].
  apply not_elem_of_cons in Hout as [Hne Hout].
  change (omap ?f (k :: order))
    with (match f k with Some y => y :: omap f order | None => omap f order end).
  cbv beta. rewrite lookup_delete_ne by done. by rewrite IH.
Qed.

Lemma proxies_cons (now : Z) (status key : string)
    (m : gmap string Invocation) (order : list string) (inc : Invocation) :
  m !! key = Some inc ->
  proxies now status m (key :: order)
  = option_list (Finalize inc status now) ++ proxies now status m order.
Proof.
  intros Hk. unfold proxies.
  change (omap ?f (key :: order))
    with (match f key with Some y => y :: omap f order | None => omap f order
          end).
  cbv beta. rewrite Hk. simpl. by destruct (Finalize inc status now).
Qed.

(** A finalization that returns no error removes the invocation and appends
    what [Finalize] gave. *)
Lemma finalizeInvocation_ok (now : Z) (key status : string) (b b1 : Batch)
    (inc : Invocation) :
  invocations b !! key = Some inc ->
  finalizeInvocation now key status b = (b1, None) ->
  invocations b1 = delete key (invocations b)
  /\ buf b1 = buf b ++ frame (option_list (Finalize inc status now)).
Proof.
  intros Hinc. unfold finalizeInvocation. rewrite Hinc.
  destruct (Finalize inc status now) as [proxyTxn|]; simpl.
  - pose proof (addData_invocations now proxyTxn b) as Hi.
    destruct (addData now proxyTxn b) as [b2 [e2|]] eqn:Hadd; [done|].
    intros [= <-]. simpl in *. rewrite Hi. split; [done|].
    destruct (addData_appends now proxyTxn b b2 Hadd) as [-> _].
    unfold frame. simpl. by rewrite app_nil_r.
  - intros [= <-]. simpl. by rewrite app_nil_r.
Qed.

(** A finalization that returns an error was refused by [addData]: the
    invocation needed a proxy transaction, nothing was appended, and the
    invocation is removed. *)
Lemma finalizeInvocation_error (now : Z) (key status : string) (b b1 : Batch)
    (inc : Invocation) (e : Err) :
  invocations b !! key = Some inc ->
  finalizeInvocation now key status b = (b1, Some e) ->
  NeedProxyTransaction inc = true
  /\ addData now (createProxyTxn inc status now) b = (b, Some e)
  /\ (e = ErrMetadataUnavailable \/ e = ErrBatchFull)
  /\ b1 = set_invocations (delete key (invocations b)) b.
Proof.
  intros Hinc. unfold finalizeInvocation, Finalize. rewrite Hinc.
  destruct (NeedProxyTransaction inc); [|done].
  destruct (addData now (createProxyTxn inc status now) b) as [b2 e2] eqn:Hadd.
  intros [= <- ->].
  destruct (addData_error _ _ _ _ _ Hadd) as [-> He]. done.
Qed.

(** The loop of [OnShutdown] over keys that are all in the map, each once. *)
Lemma OnShutdown_loop_spec (now : Z) (status : string) (order : list string)
    (b : Batch) :
  NoDup order ->
  (forall key, key ∈ order ->
     exists inc, invocations b !! key = Some inc /\ RequestID inc = key) ->
  match OnShutdown_loop now status order b with
  | (b', None) =>
      invocations b' = foldr delete (invocations b) order
      /\ buf b' = buf b ++ frame (proxies now status (invocations b) order)
  | (b', Some e) =>
      exists finalized key rest inc bk,
        order = finalized ++ key :: rest
        /\ OnShutdown_loop now status finalized b = (bk, None)
        /\ invocations b !! key = Some inc
        /\ NeedProxyTransaction inc = true
        /\ addData now (createProxyTxn inc status now) bk = (bk, Some e)
        /\ (e = ErrMetadataUnavailable \/ e = ErrBatchFull)
        /\ b' = set_invocations (delete key (invocations bk)) bk
  end.
Proof.
  intros Hnodup. revert b.
  induction Hnodup as [|key order Hout Hnodup IH]; intros b Hkeys.
  { simpl. unfold proxies, frame. simpl. by rewrite app_nil_r. }
  destruct (Hkeys key (list_elem_of_here _ _)) as (inc & Hinc & Hid).
  rewrite (proxies_cons now status key _ order inc Hinc).
  cbn [OnShutdown_loop foldr]. rewrite Hinc, Hid.
  destruct (finalizeInvocation now key status b) as [b1 [e1|]] eqn:Hfin.
  - destruct (finalizeInvocation_error now key status b b1 inc e1 Hinc Hfin)
      as (Hneed & Hadd & He & ->).
    by exists [], key, order, inc, b.
  - destruct (finalizeInvocation_ok now key status b b1 inc Hinc Hfin)
      as [Hi1 Hb1].
    assert (Hkeys1 : forall k, k ∈ order ->
              exists i, invocations b1 !! k = Some i /\ RequestID i = k).
    { intros k Hk. rewrite Hi1, lookup_delete_ne by (intros ->; done).
      apply Hkeys. by apply list_elem_of_further. }
    specialize (IH b1 Hkeys1).
    destruct (OnShutdown_loop now status order b1) as [b' [e|]].
    + destruct IH as (finalized & k & rest & i & bk & -> & Hloop & Hk & Hneed
                      & Hadd & He & ->).
      exists (key :: finalized), k, rest, i, bk.
      split; [done|]. split; [by simpl; rewrite Hinc, Hid, Hfin|].
      split; [|done].
      rewrite Hi1, lookup_delete_ne in Hk; [done|].
      intros ->. apply Hout. apply elem_of_app. right. apply list_elem_of_here.
    + destruct IH as [-> ->]. rewrite Hi1, Hb1. split.
      * clear. induction order as [|k order IH]; simpl; [done|].
        by rewrite IH, delete_delete.
      * rewrite proxies_delete by done. by rewrite frame_app, app_assoc.
Qed.

End Shutdown.

(** C8, as the code has it.  In a batch whose invocations are stored under
    their own request IDs, as [RegisterInvocation] stores them, [OnShutdown]
    finalizes the invocations one after the other, in the order the map is
    ranged over, with the given status.
    When it returns no error, every invocation has been finalized and removed
    (the map is empty), and the buffer has grown by the proxy transactions of
    the invocations that needed one, in that order.  When it returns an
    error, that is the error of the first finalization that failed, and the
    loop stopped there: the invocations before it are finalized and removed
    with their proxy transactions appended, the failing one is removed with
    nothing appended, and the invocations after it are still in the map, not
    finalized. *)
Theorem OnShutdown_finalizes `{Externals} (now : Z) (status : string)
    (order : list string) (b : Batch) :
  iteration_order b order ->
  (forall key inc, invocations b !! key = Some inc -> RequestID inc = key) ->
  let b' := (OnShutdown now status order b).1 in
  let err := (OnShutdown now status order b).2 in
  (err = None ->
   invocations b' = ∅
   /\ buf b' = buf b ++ frame (proxies now status (invocations b) order))
  /\ (forall e, err = Some e ->
      exists finalized key rest inc bk,
        order = finalized ++ key :: rest
        /\ OnShutdown now status finalized b = (bk, None)
        /\ buf bk
           = buf b ++ frame (proxies now status (invocations b) finalized)
        /\ invocations b !! key = Some inc
        /\ NeedProxyTransaction inc = true
        /\ addData now (createProxyTxn inc status now) bk = (bk, Some e)
        /\ (e = ErrMetadataUnavailable \/ e = ErrBatchFull)
        /\ buf b' = buf bk
        /\ (forall k, k ∈ finalized ++ [key] -> invocations b' !! k = None)
        /\ (forall k, k ∈ rest -> invocations b' !! k = invocations b !! k)).
Proof.
  intros Horder Hkeyed b' err.
  assert (Hnodup : NoDup order).
  { unfold iteration_order in Horder. rewrite Horder.
    apply NoDup_fst_map_to_list. }
  assert (Hkeys : forall key, key ∈ order ->
            exists inc, invocations b !! key = Some inc /\ RequestID inc = key).
  { intros key Hin. unfold iteration_order in Horder. rewrite Horder in Hin.
    apply list_elem_of_fmap in Hin as ([k inc] & -> & Hin).
    apply elem_of_map_to_list in Hin. exists inc. split; [done|].
    by apply Hkeyed. }
  pose proof (OnShutdown_loop_spec now status order b Hnodup Hkeys) as Hspec.
  subst b' err. unfold OnShutdown.
  destruct (OnShutdown_loop now status order b) as [b' [e|]]; simpl.
  - split; [done|]. intros e' [= <-].
    destruct Hspec as (finalized & key & rest & inc & bk & -> & Hloop & Hk
                       & Hneed & Hadd & He & ->).
    apply NoDup_app in Hnodup as (Hnd1 & Hdisj & Hnd2).
    apply NoDup_cons in Hnd2 as [Hkrest Hnd2].
    assert (Hkeys1 : forall k, k ∈ finalized ->
              exists i, invocations b !! k = Some i /\ RequestID i = k).
    { intros k Hin. apply Hkeys. apply elem_of_app. by left. }
    pose proof (OnShutdown_loop_spec now status finalized b Hnd1 Hkeys1)
      as Hspec1.
    rewrite Hloop in Hspec1. destruct Hspec1 as [Hi Hb].
    exists finalized, key, rest, inc, bk.
    repeat split; try done.
    + intros k Hin. simpl. rewrite lookup_delete.
      destruct (decide (key = k)) as [|Hne]; [done|].
      rewrite Hi, foldr_delete_lookup. rewrite decide_True; [done|].
      apply elem_of_app in Hin as [?|Hin]; [done|].
      apply list_elem_of_singleton in Hin. congruence.
    + intros k Hin. simpl. rewrite lookup_delete_ne by (intros ->; done).
      rewrite Hi, foldr_delete_lookup. rewrite decide_False; [done|].
      intros Hfin. apply (Hdisj k Hfin). by apply list_elem_of_further.
  - split; [|done]. intros _. destruct Hspec as [-> ->].
    split; [|done]. by apply foldr_delete_all.
Qed.

(** Scenario S5 after the agent's metadata has come: both invocations are
    finalized and removed, and the proxy transaction of each is appended. *)
Lemma OnShutdown_finalizes_witness :
  let b := Scenario.S5_with_metadata 10 in
  let b' := (OnShutdown 400 "failure" ["R4"; "R5"]%string b).1 in
  (OnShutdown 400 "failure" ["R4"; "R5"]%string b).2 = None
  /\ invocations b' = ∅
  /\ buf b'
     = buf b
       ++ frame (proxies 400 "failure" (invocations b) ["R4"; "R5"]%string)
  /\ transactions_of "T4" (ToAPMData b') = 1%nat
  /\ transactions_of "T5" (ToAPMData b') = 1%nat.
Proof.
  intros b b'.
  assert (Herr : (OnShutdown 400 "failure" ["R4"; "R5"]%string b).2 = None)
    by by vm_compute.
  split; [exact Herr|].
  destruct (OnShutdown_finalizes 400 "failure" ["R4"; "R5"]%string b)
    as [Hok _].
  - unfold iteration_order. vm_compute.
    first [reflexivity | apply perm_swap].
  - apply (bool_decide_unpack
             (map_Forall (fun key inc => RequestID inc = key) (invocations b))).
    by vm_compute.
  - destruct (Hok Herr) as [Hinv Hbuf].
    split; [exact Hinv|]. split; [exact Hbuf|]. by vm_compute.
Defined.

(** C8 as the specification states it does not hold: with two open
    invocations that need a proxy transaction and no metadata yet,
    [OnShutdown] returns at the first of them, whichever the order, and the
    other stays in the map, not finalized. *)
Lemma OnShutdown_stops_at_first_error :
  let b := Scenario.S5_open 10 in
  (iteration_order b ["R4"; "R5"]%string
   /\ iteration_order b ["R5"; "R4"]%string)
  /\ (OnShutdown 400 "failure" ["R4"; "R5"]%string b).2
     = Some ErrMetadataUnavailable
  /\ invocations (OnShutdown 400 "failure" ["R4"; "R5"]%string b).1
     !! "R5"%string = invocations b !! "R5"%string
  /\ (OnShutdown 400 "failure" ["R5"; "R4"]%string b).2
     = Some ErrMetadataUnavailable
  /\ invocations (OnShutdown 400 "failure" ["R5"; "R4"]%string b).1
     !! "R4"%string = invocations b !! "R4"%string
  /\ is_Some (invocations b !! "R4"%string)
  /\ is_Some (invocations b !! "R5"%string)
  /\ ~ (invocations (OnShutdown 400 "failure" ["R4"; "R5"]%string b).1 = ∅)
  /\ ~ (invocations (OnShutdown 400 "failure" ["R5"; "R4"]%string b).1 = ∅).
Proof.
  intros b. split.
  { unfold iteration_order. split; vm_compute;
      first [reflexivity | apply perm_swap]. }
  split; [by vm_compute|]. split; [by vm_compute|].
  split; [by vm_compute|]. split; [by vm_compute|].
  split; [apply (bool_decide_unpack _); by vm_compute|].
  split; [apply (bool_decide_unpack _); by vm_compute|].
  split.
  - intros Hempty.
    assert (invocations (OnShutdown 400 "failure" ["R4"; "R5"]%string b).1
            !! "R5"%string = None) as Hnone by by rewrite Hempty.
    by vm_compute in Hnone.
  - intros Hempty.
    assert (invocations (OnShutdown 400 "failure" ["R5"; "R4"]%string b).1
            !! "R4"%string = None) as Hnone by by rewrite Hempty.
    by vm_compute in Hnone.
Qed.

(** ** The metadata prefix *)

Section Metadata.
Context `{Externals}.

Lemma extends_refl (b : Batch) : extends b b.
Proof. split; [done|]. exists []. by rewrite app_nil_r. Qed.

Lemma extends_trans (b1 b2 b3 : Batch) :
  extends b1 b2 -> extends b2 b3 -> extends b1 b3.
Proof.
  intros [Hm1 [s1 Hs1]] [Hm2 [s2 Hs2]]. split; [congruence|].
  exists (s1 ++ s2). by rewrite Hs2, Hs1, app_assoc.
Qed.

Lemma extends_same_buf (b b' : Batch) :
  metadataBytes b' = metadataBytes b -> buf b' = buf b -> extends b b'.
Proof. intros Hm Hb. split; [done|]. exists []. by rewrite app_nil_r. Qed.

Lemma addData_extends (now : Z) (data : bytes) (b : Batch) :
  extends b (addData now data b).1.
Proof.
  destruct (addData_cases now data b)
    as [[_ E]|[(_ & _ & E)|(_ & _ & b1 & E & Hb & _ & _ & Hm & _)]];
    rewrite E; simpl; [apply extends_refl..|].
  split; [done|]. by exists (newline :: data).
Qed.

Lemma AddAgentData_event_extends (now : Z) (key : string) (line : bytes)
    (b b' : Batch) (e : option Err) :
  AddAgentData_event now key line b = Ret (b', e) -> extends b b'.
Proof.
  intros Hev.
  destruct (invocations b !! key) as [inc|] eqn:Hinc.
  - destruct (AddAgentData_event_cases now key line b inc Hinc)
      as [[_ E]|[_ E]]; rewrite E in Hev.
    + injection Hev as <- <-. by apply extends_same_buf.
    + injection Hev as Hadd.
      replace b' with (addData now line b).1 by (by rewrite Hadd).
      apply addData_extends.
  - unfold AddAgentData_event in Hev. by rewrite Hinc in Hev.
Qed.

Lemma AddAgentData_loop_extends (now : Z) (key : string)
    (events : list bytes) (b b' : Batch) (e : option Err) :
  AddAgentData_loop now key events b = Ret (b', e) -> extends b b'.
Proof.
  revert b. induction events as [|line events IH]; intros b; simpl.
  - intros [= <- <-]. apply extends_refl.
  - destruct (AddAgentData_event now key line b) as [[b1 [e1|]]|] eqn:Hev;
      simpl; [| |done].
    + intros [= <- <-]. by eapply AddAgentData_event_extends.
    + intros Hloop. eapply extends_trans; [|by apply IH].
      by eapply AddAgentData_event_extends.
Qed.

Lemma extends_set_invocations (m : gmap string Invocation) (b b' : Batch) :
  extends b b' -> extends b (set_invocations m b').
Proof. by intros [Hm Hs]. Qed.

Lemma finalizeInvocation_extends (now : Z) (reqID status : string)
    (b : Batch) :
  extends b (finalizeInvocation now reqID status b).1.
Proof.
  unfold finalizeInvocation.
  destruct (invocations b !! reqID) as [inc|]; [|apply extends_refl].
  destruct (Finalize inc status now) as [proxyTxn|].
  - pose proof (addData_extends now proxyTxn b) as Hadd.
    destruct (addData now proxyTxn b) as [b1 e1].
    by apply extends_set_invocations.
  - apply extends_set_invocations, extends_refl.
Qed.

Lemma OnShutdown_loop_extends (now : Z) (status : string)
    (order : list string) (b : Batch) :
  extends b (OnShutdown_loop now status order b).1.
Proof.
  revert b. induction order as [|key order IH]; intros b; simpl.
  { apply extends_refl. }
  destruct (invocations b !! key) as [inc|]; [|apply IH].
  pose proof (finalizeInvocation_extends now (RequestID inc) status b) as Hf.
  destruct (finalizeInvocation now (RequestID inc) status b) as [b1 [e1|]];
    simpl in *; [done|].
  eapply extends_trans; [exact Hf|apply IH].
Qed.

Lemma extends_prefix (b b' : Batch) :
  0 <= metadataBytes b <= Z.of_nat (length (buf b)) ->
  extends b b' ->
  metadataBytes b' = metadataBytes b
  /\ take (Z.to_nat (metadataBytes b)) (buf b')
     = take (Z.to_nat (metadataBytes b)) (buf b).
Proof.
  intros Hm [Hmb [suffix Hs]]. split; [done|].
  rewrite Hs. apply take_app_le. lia.
Qed.

(** What a call does to the metadata: it leaves the length and the buffer
    before it alone, except that [AddAgentData] on a batch without metadata
    writes the first line of the decoded body at the head of the empty
    buffer. *)
Lemma exec_metadata (c : Call) (b b' : Batch) :
  batch_inv b -> exec c b = Ret b' ->
  (metadataBytes b' = metadataBytes b
   /\ take (Z.to_nat (metadataBytes b)) (buf b')
      = take (Z.to_nat (metadataBytes b)) (buf b))
  \/ (metadataBytes b = 0
      /\ exists now data encoding raw,
           c = CallAddAgentData now data encoding
           /\ GetUncompressedBytes data encoding = inl raw
           /\ is_Some (invocations b !! currentlyExecutingRequestID b)
           /\ metadataBytes b' = Z.of_nat (length (hd [] (Split raw)))
           /\ take (Z.to_nat (metadataBytes b')) (buf b') = hd [] (Split raw)).
Proof.
  intros Hinv Hexec.
  pose proof (inv_metadata b Hinv) as Hm.
  destruct c; simpl in Hexec.
  - injection Hexec as <-. by left.
  - injection Hexec as <-. left. unfold OnAgentInit.
    by destruct (invocations b !! currentlyExecutingRequestID b).
  - destruct (AddAgentData now data encoding b) as [[b1 e1]|] eqn:Hadd;
      simpl in Hexec; [|done].
    injection Hexec as <-. unfold AddAgentData in Hadd.
    destruct (GetUncompressedBytes data encoding) as [raw|err] eqn:Hraw;
      [|injection Hadd as <- <-; by left].
    destruct (Split raw) as [|line0 events] eqn:Hsplit;
      [injection Hadd as <- <-; by left|].
    destruct (invocations b !! currentlyExecutingRequestID b) as [inc|] eqn:Hi;
      [|injection Hadd as <- <-; by left].
    apply AddAgentData_loop_extends in Hadd.
    unfold AddAgentData_metadata in Hadd.
    destruct (decide (metadataBytes b = 0)) as [Hz|Hz].
    + right. split; [done|]. exists now, data, encoding, raw.
      rewrite Hsplit. simpl.
      destruct (metadata_absent_empty b Hinv Hz) as [Hbuf _].
      destruct Hadd as [Hmb [suffix Hs]]. simpl in *.
      rewrite Hbuf in Hs. simpl in Hs.
      split; [done|]. split; [done|]. split; [by eexists|].
      split; [done|].
      rewrite Hmb, Hs, Nat2Z.id. apply take_app_length.
    + left. by apply extends_prefix.
  - injection Hexec as <-. left. apply extends_prefix; [done|].
    apply finalizeInvocation_extends.
  - injection Hexec as <-. left. apply extends_prefix; [done|].
    apply OnShutdown_loop_extends.
  - injection Hexec as <-. left. apply extends_prefix; [done|].
    apply addData_extends.
  - rewrite Reset_returns in Hexec by done. injection Hexec as <-.
    left. simpl. split; [done|]. rewrite take_take. f_equal. lia.
Qed.

Lemma calls_metadata (b b' : Batch) :
  calls b b' -> batch_inv b -> metadataBytes b <> 0 ->
  metadataBytes b' = metadataBytes b
  /\ take (Z.to_nat (metadataBytes b)) (buf b')
     = take (Z.to_nat (metadataBytes b)) (buf b).
Proof.
  induction 1 as [|b b1 b2 c _ Hexec _ IH]; intros Hinv Hnz; [done|].
  destruct (exec_metadata c b b1 Hinv Hexec) as [[Hm Hp]|[Hz _]]; [|done].
  destruct IH as [Hm2 Hp2]; [by eapply exec_inv|congruence|].
  rewrite Hm in Hm2, Hp2. split; [done|]. by rewrite Hp2.
Qed.

End Metadata.

(** C6.  In every reachable state the metadata length lies between zero and
    the length of the buffer, and the buffer is empty as long as it is zero.
    A call makes it non-zero only from zero, and only [AddAgentData] does:
    the prefix of that length is then the first line of the decoded body,
    the first metadata line written.  From a state in which it is non-zero no
    run of calls changes it or a byte of that prefix. *)
Theorem metadata_immutable `{Externals} (maxSize maxAge : Z) (b : Batch) :
  reachable maxSize maxAge b ->
  0 <= metadataBytes b <= Z.of_nat (length (buf b))
  /\ (metadataBytes b = 0 -> buf b = [])
  /\ (forall c b',
        valid_call b c -> exec c b = Ret b' ->
        metadataBytes b' <> metadataBytes b ->
        metadataBytes b = 0
        /\ exists now data encoding raw,
             c = CallAddAgentData now data encoding
             /\ GetUncompressedBytes data encoding = inl raw
             /\ metadataBytes b' = Z.of_nat (length (hd [] (Split raw)))
             /\ take (Z.to_nat (metadataBytes b')) (buf b')
                = hd [] (Split raw))
  /\ (forall b',
        calls b b' -> metadataBytes b <> 0 ->
        metadataBytes b' = metadataBytes b
        /\ take (Z.to_nat (metadataBytes b)) (buf b')
           = take (Z.to_nat (metadataBytes b)) (buf b)).
Proof.
  intros Hreach. pose proof (reachable_inv _ _ _ Hreach) as Hinv.
  split; [apply (inv_metadata b Hinv)|].
  split; [intros Hz; by apply metadata_absent_empty|].
  split.
  - intros c b' _ Hexec Hchange.
    destruct (exec_metadata c b b' Hinv Hexec)
      as [[Hm _]|(Hz & now & data & encoding & raw & -> & Hraw & _ & Hlen
                  & Hp)]; [done|].
    split; [done|]. by exists now, data, encoding, raw.
  - intros b' Hcalls Hnz. by apply calls_metadata.
Qed.

(** The state of scenario S1 after the agent's data is reachable, its
    metadata length is that of the metadata line, and finalizing [R1] leaves
    the metadata as it is. *)
Lemma metadata_immutable_witness :
  0 <= metadataBytes (Scenario.S1_after_agent 10)
    <= Z.of_nat (length (buf (Scenario.S1_after_agent 10)))
  /\ metadataBytes (Scenario.S1_final 10)
     = metadataBytes (Scenario.S1_after_agent 10)
  /\ take (Z.to_nat (metadataBytes (Scenario.S1_after_agent 10)))
       (buf (Scenario.S1_final 10))
     = take (Z.to_nat (metadataBytes (Scenario.S1_after_agent 10)))
         (buf (Scenario.S1_after_agent 10)).
Proof.
  set (b0 := NewBatch 10 1000).
  set (b1 := RegisterInvocation "R1" "arn:aws:lambda:fn" 3000 100 b0).
  assert (H0 : reachable 10 1000 b0).
  { apply reachable_new. unfold int_range. lia. }
  assert (H1 : reachable 10 1000 b1).
  { apply (reachable_call 10 1000 b0 b1
             (CallRegisterInvocation "R1" "arn:aws:lambda:fn" 3000 100) H0 I).
    reflexivity. }
  assert (H2 : reachable 10 1000 (Scenario.S1_announced 10)).
  { apply (reachable_call 10 1000 b1 (Scenario.S1_announced 10)
             (CallOnAgentInit "T1" "Tr1") H1 I).
    reflexivity. }
  assert (H3 : reachable 10 1000 (Scenario.S1_after_agent 10)).
  { apply (reachable_call 10 1000 (Scenario.S1_announced 10)
             (Scenario.S1_after_agent 10)
             (CallAddAgentData 150 Scenario.S1_body "identity") H2 I).
    by vm_compute. }
  destruct (metadata_immutable 10 1000 _ H3) as (Hrange & _ & _ & Hcalls).
  split; [exact Hrange|]. apply Hcalls.
  - apply (calls_cons (Scenario.S1_after_agent 10) (Scenario.S1_final 10)
             (Scenario.S1_final 10)
             (CallOnLambdaLogRuntimeDone 200 "R1" "success") I);
      [reflexivity|apply calls_nil].
  - by vm_compute.
Defined.

(** ** The size threshold of ShouldShip *)

(** The floating-point specification is written with the integer operations
    of the core library; the lemmas and [lia] know those of [BinInt], to which
    they unfold. *)
Ltac std_Z :=
  change IntDef.Z.add with Z.add in *;
  change IntDef.Z.sub with Z.sub in *;
  change IntDef.Z.opp with Z.opp in *;
  change IntDef.Z.mul with Z.mul in *;
  change IntDef.Z.max with Z.max in *;
  change IntDef.Z.leb with Z.leb in *;
  change IntDef.Z.eqb with Z.eqb in *;
  change IntDef.Z.even with Z.even in *;
  change PosDef.Pos.mul with Pos.mul in *;
  change PosDef.Pos.succ with Pos.succ in *;
  change @PosDef.Pos.iter with @Pos.iter in *.

(** The exponent test of a rounding that does not overflow. *)
Ltac exponent_in_range := std_Z; rewrite (proj2 (Z.leb_le _ _)) by lia.

(** Side conditions on powers of two. *)
Ltac pow_side :=
  first [lia | apply Z.pow_pos_nonneg; lia | apply Z.pow_nonzero; lia].

Lemma digits2_pos_bounds (p : positive) :
  2 ^ (Z.pos (digits2_pos p) - 1) <= Z.pos p < 2 ^ Z.pos (digits2_pos p).
Proof.
  induction p as [p IH|p IH|]; simpl digits2_pos.
  - rewrite Pos2Z.inj_succ.
    replace (Z.succ (Z.pos (digits2_pos p)) - 1)
      with (Z.succ (Z.pos (digits2_pos p) - 1)) by lia.
    rewrite !Z.pow_succ_r by lia. lia.
  - rewrite Pos2Z.inj_succ.
    replace (Z.succ (Z.pos (digits2_pos p)) - 1)
      with (Z.succ (Z.pos (digits2_pos p) - 1)) by lia.
    rewrite !Z.pow_succ_r by lia. lia.
  - simpl. lia.
Qed.

Lemma digits2_pos_unique (p : positive) (d : Z) :
  2 ^ (d - 1) <= Z.pos p < 2 ^ d -> Z.pos (digits2_pos p) = d.
Proof.
  intros [Hlo Hhi]. pose proof (digits2_pos_bounds p) as [Hlo' Hhi'].
  assert (0 < d).
  { destruct (Z_lt_le_dec 0 d) as [|Hd]; [done|].
    assert (2 ^ d <= 2 ^ 0) by (apply Z.pow_le_mono_r; lia).
    simpl in *. lia. }
  destruct (Z_lt_le_dec (Z.pos (digits2_pos p)) d) as [Hlt|Hge].
  - assert (2 ^ Z.pos (digits2_pos p) <= 2 ^ (d - 1))
      by (apply Z.pow_le_mono_r; lia).
    lia.
  - destruct (Z_lt_le_dec d (Z.pos (digits2_pos p))) as [Hlt|Hle]; [|lia].
    assert (2 ^ d <= 2 ^ (Z.pos (digits2_pos p) - 1))
      by (apply Z.pow_le_mono_r; lia).
    lia.
Qed.

Lemma iter_xO_value (p s : positive) :
  Z.pos (Pos.iter xO p s) = Z.pos p * 2 ^ Z.pos s.
Proof.
  induction s as [|s IH] using Pos.peano_ind.
  - simpl. lia.
  - rewrite Pos.iter_succ, Pos2Z.inj_succ, Z.pow_succ_r by lia.
    rewrite Pos2Z.inj_xO, IH. lia.
Qed.

(** One step of the right shift: the mantissa is halved and the bit shifted
    out is kept. *)
Lemma shr_1_spec (m : Z) (r s : bool) :
  0 <= m ->
  shr_m (shr_1 {| shr_m := m; shr_r := r; shr_s := s |}) = m / 2
  /\ shr_r (shr_1 {| shr_m := m; shr_r := r; shr_s := s |}) = Z.odd m.
Proof.
  intros Hm. destruct m as [|[p|p|]|p]; simpl; try lia; try done.
  - split; [|done]. rewrite Pos2Z.inj_xI.
    apply (Z.div_unique_pos _ _ _ 1); lia.
  - split; [|done]. rewrite Pos2Z.inj_xO.
    apply (Z.div_unique_pos _ _ _ 0); lia.
Qed.

Lemma iter_pos_shr_1 (k : positive) (mrs : shr_record) :
  0 <= shr_m mrs ->
  shr_m (SpecFloat.iter_pos shr_1 k mrs) = shr_m mrs / 2 ^ Z.pos k
  /\ shr_r (SpecFloat.iter_pos shr_1 k mrs)
     = Z.testbit (shr_m mrs) (Z.pos k - 1).
Proof.
  revert mrs.
  induction k as [k IH|k IH|]; intros mrs Hm; cbn [SpecFloat.iter_pos].
  - destruct mrs as [m r s]. simpl in Hm.
    destruct (shr_1_spec m r s Hm) as [E1 R1].
    set (x1 := shr_1 {| shr_m := m; shr_r := r; shr_s := s |}) in *.
    assert (H1 : 0 <= shr_m x1) by (rewrite E1; apply Z.div_pos; lia).
    destruct (IH x1 H1) as [E2 R2].
    set (x2 := SpecFloat.iter_pos shr_1 k x1) in *.
    assert (H2 : 0 <= shr_m x2).
    { rewrite E2. apply Z.div_pos; [done|apply Z.pow_pos_nonneg; lia]. }
    destruct (IH x2 H2) as [E3 R3]. cbn [shr_m]. split.
    + rewrite E3, E2, E1, !Z.div_div by pow_side.
      f_equal. replace (Z.pos k~1) with (1 + Z.pos k + Z.pos k) by lia.
      rewrite !Z.pow_add_r by lia. rewrite Z.pow_1_r. lia.
    + rewrite R3, E2, E1.
      replace (m / 2) with (m / 2 ^ 1) by (by rewrite Z.pow_1_r).
      rewrite <- !Z.shiftr_div_pow2 by lia.
      rewrite !Z.shiftr_spec by lia. f_equal. lia.
  - destruct (IH mrs Hm) as [E2 R2].
    set (x2 := SpecFloat.iter_pos shr_1 k mrs) in *.
    assert (H2 : 0 <= shr_m x2).
    { rewrite E2. apply Z.div_pos; [done|apply Z.pow_pos_nonneg; lia]. }
    destruct (IH x2 H2) as [E3 R3]. split.
    + rewrite E3, E2, Z.div_div by pow_side.
      f_equal. replace (Z.pos k~0) with (Z.pos k + Z.pos k) by lia.
      by rewrite Z.pow_add_r by lia.
    + rewrite R3, E2. rewrite <- Z.shiftr_div_pow2 by lia.
      rewrite Z.shiftr_spec by lia. f_equal. lia.
  - destruct mrs as [m r s]. simpl in Hm.
    destruct (shr_1_spec m r s Hm) as [E1 R1]. split.
    + rewrite E1. cbn [shr_m]. by rewrite Z.pow_1_r.
    + rewrite R1. cbn [shr_m]. change (Z.pos 1 - 1) with 0.
      by rewrite Z.bit0_odd.
Qed.

(** A set round bit means that at least half a unit was shifted out. *)
Lemma testbit_half (m k : Z) :
  0 <= m -> 0 < k -> Z.testbit m (k - 1) = true ->
  2 ^ k * (m / 2 ^ k) + 2 ^ (k - 1) <= m.
Proof.
  intros Hm Hk Hbit.
  apply Z.testbit_true in Hbit; [|lia].
  assert (Hpow : 2 ^ k = 2 ^ (k - 1) * 2).
  { replace k with (k - 1 + 1) at 1 by lia.
    rewrite Z.pow_add_r by lia. by rewrite Z.pow_1_r. }
  assert (Hp : 0 < 2 ^ (k - 1)) by (apply Z.pow_pos_nonneg; lia).
  set (t := m / 2 ^ (k - 1)) in *.
  assert (Hq : m / 2 ^ k = t / 2).
  { rewrite Hpow. unfold t. by rewrite Z.div_div by lia. }
  pose proof (Z.div_mod t 2 ltac:(lia)) as Ht.
  pose proof (Z.mul_div_le m (2 ^ (k - 1)) Hp) as Hle. fold t in Hle.
  rewrite Hq, Hpow. nia.
Qed.

(** Rounding to nearest, ties to even: the mantissa kept is the quotient or
    its successor, and the successor only when the round bit is set. *)
Lemma round_nearest_even_cases (mrs : shr_record) :
  let m1 := round_nearest_even (shr_m mrs) (loc_of_shr_record mrs) in
  m1 = shr_m mrs \/ (m1 = shr_m mrs + 1 /\ shr_r mrs = true).
Proof.
  destruct mrs as [m [|] [|]]; simpl; auto.
  destruct (Z.even m); auto.
Qed.

(** The rounding of a mantissa [P] of more than 53 bits, in the range of the
    normal numbers: [k] bits are shifted out, and the mantissa [M1] kept is
    within half a unit of [P / 2^k]. *)
Lemma binary_round_aux_long (P : positive) (e0 : Z) :
  let D := Z.pos (digits2_pos P) in
  let k := D - 53 in
  0 < k -> - 1074 <= e0 + k -> e0 + k + 1 <= 971 ->
  exists (M : positive) (e M1 : Z),
    binary_round_aux prec64 emax64 false (Z.pos P) e0 loc_Exact
    = S754_finite false M e
    /\ Z.pos P / 2 ^ k <= M1
    /\ 2 ^ (k + 1) * M1 <= 2 * Z.pos P + 2 ^ k
    /\ ((e = e0 + k /\ Z.pos M = M1) \/ (e = e0 + k + 1 /\ 2 * Z.pos M = M1)).
Proof.
  intros D k Hk Hlo Hhi.
  pose proof (digits2_pos_bounds P) as [HPlo HPhi]. fold D in HPlo, HPhi.
  assert (Hk2 : 0 < 2 ^ k) by (apply Z.pow_pos_nonneg; lia).
  assert (HD : 2 ^ D = 2 ^ 53 * 2 ^ k).
  { replace D with (53 + k) by (unfold k; lia). by rewrite Z.pow_add_r by lia. }
  assert (HD1 : 2 ^ (D - 1) = 2 ^ 52 * 2 ^ k).
  { replace (D - 1) with (52 + k) by (unfold k; lia).
    by rewrite Z.pow_add_r by lia. }
  set (q := Z.pos P / 2 ^ k).
  assert (Hq : 2 ^ 52 <= q < 2 ^ 53).
  { unfold q. split.
    - apply Z.div_le_lower_bound; [done|]. lia.
    - apply Z.div_lt_upper_bound; [done|]. lia. }
  unfold binary_round_aux, shr_fexp, fexp, emin, prec64, emax64. std_Z.
  change (Zdigits2 (Z.pos P)) with D.
  replace (Z.max (D + e0 - 53) (3 - 1024 - 53) - e0) with k
    by (unfold k; lia).
  destruct k as [|kp|kp] eqn:Ek; [lia| |lia].
  unfold shr at 1. simpl shr_record_of_loc.
  destruct (iter_pos_shr_1 kp
              {| shr_m := Z.pos P; shr_r := false; shr_s := false |}
              ltac:(simpl; lia)) as [Em Er].
  cbn [shr_m] in Em, Er.
  set (mrs := SpecFloat.iter_pos shr_1 kp
                {| shr_m := Z.pos P; shr_r := false; shr_s := false |}) in *.
  fold q in Em.
  destruct (round_nearest_even_cases mrs) as [HM1|[HM1 Hr]];
    set (M1 := round_nearest_even (shr_m mrs) (loc_of_shr_record mrs)) in *;
    rewrite Em in HM1.
  - (* the quotient is kept *)
    assert (Hdig : Zdigits2 M1 = 53).
    { rewrite HM1. destruct q as [|qp|qp] eqn:Eq; try lia.
      simpl. apply digits2_pos_unique. simpl. lia. }
    rewrite Hdig.
    replace (Z.max (53 + (e0 + Z.pos kp) - 53) (3 - 1024 - 53)
             - (e0 + Z.pos kp)) with 0 by lia.
    simpl shr. rewrite HM1.
    destruct q as [|qp|qp] eqn:Eq; try lia. simpl.
    exists qp, (e0 + Z.pos kp), (Z.pos qp).
    exponent_in_range.
    split; [done|]. split; [lia|]. split; [|by left].
    pose proof (Z.mul_div_le (Z.pos P) (2 ^ Z.pos kp) Hk2) as Hle.
    fold q in Hle. rewrite Eq in Hle.
    replace (Z.pos kp + 1) with (1 + Z.pos kp) by lia.
    rewrite Z.pow_add_r by lia. simpl (2 ^ 1). lia.
  - (* the successor is kept *)
    rewrite Er in Hr.
    pose proof (testbit_half (Z.pos P) (Z.pos kp) ltac:(lia) ltac:(lia) Hr)
      as Hhalf. fold q in Hhalf.
    assert (Hpow : 2 ^ (Z.pos kp + 1) = 2 * 2 ^ Z.pos kp).
    { replace (Z.pos kp + 1) with (1 + Z.pos kp) by lia.
      by rewrite Z.pow_add_r by lia. }
    assert (Hpow' : 2 ^ Z.pos kp = 2 * 2 ^ (Z.pos kp - 1)).
    { replace (Z.pos kp) with (1 + (Z.pos kp - 1)) at 1 by lia.
      by rewrite Z.pow_add_r by lia. }
    assert (Hbound : 2 ^ (Z.pos kp + 1) * M1 <= 2 * Z.pos P + 2 ^ Z.pos kp).
    { rewrite HM1, Hpow. lia. }
    destruct (Z_lt_le_dec M1 (2 ^ 53)) as [Hlt|Hge].
    + assert (Hdig : Zdigits2 M1 = 53).
      { destruct M1 as [|mp|mp] eqn:EM; try lia.
        simpl. apply digits2_pos_unique. simpl. lia. }
      rewrite Hdig.
      replace (Z.max (53 + (e0 + Z.pos kp) - 53) (3 - 1024 - 53)
               - (e0 + Z.pos kp)) with 0 by lia.
      simpl shr.
      destruct M1 as [|mp|mp] eqn:EM; try lia. simpl.
      exists mp, (e0 + Z.pos kp), (Z.pos mp).
      exponent_in_range.
      split; [done|]. split; [lia|]. split; [done|by left].
    + assert (EM : M1 = 2 ^ 53) by lia.
      rewrite EM. change (Zdigits2 (2 ^ 53)) with 54.
      replace (Z.max (54 + (e0 + Z.pos kp) - 53) (3 - 1024 - 53)
               - (e0 + Z.pos kp)) with 1 by lia.
      change (shr {| shr_m := 2 ^ 53; shr_r := false; shr_s := false |}
                (e0 + Z.pos kp) 1)
        with ({| shr_m := Z.pos 4503599627370496; shr_r := false;
                 shr_s := false |}, e0 + Z.pos kp + 1).
      cbn [shr_m].
      exists 4503599627370496%positive, (e0 + Z.pos kp + 1), M1.
      exponent_in_range.
      split; [done|]. split; [lia|]. split; [done|].
      right. split; [done|]. by rewrite EM.
Qed.

(** [float64(n)] is exact for a positive [n] of fewer than 53 bits: the
    mantissa is [n] shifted to 53 bits. *)
Lemma float64_of_int_exact (p : positive) :
  Z.pos (digits2_pos p) < 53 ->
  exists s : positive,
    Z.pos s = 53 - Z.pos (digits2_pos p)
    /\ float64_of_int (Z.pos p) = S754_finite false (Pos.iter xO p s) (Z.neg s).
Proof.
  intros Hd. set (d := Z.pos (digits2_pos p)) in *.
  destruct (53 - d) as [|s|s] eqn:Es; try lia.
  exists s. split; [done|].
  pose proof (digits2_pos_bounds p) as [Hlo Hhi]. fold d in Hlo, Hhi.
  pose proof (iter_xO_value p s) as Hval.
  assert (Hpow : 2 ^ 53 = 2 ^ d * 2 ^ Z.pos s).
  { rewrite <- Z.pow_add_r by lia. f_equal. lia. }
  assert (Hpow' : 2 ^ 52 = 2 ^ (d - 1) * 2 ^ Z.pos s).
  { rewrite <- Z.pow_add_r by lia. f_equal. lia. }
  assert (Hs : 0 < 2 ^ Z.pos s) by (apply Z.pow_pos_nonneg; lia).
  assert (Hdig : Z.pos (digits2_pos (Pos.iter xO p s)) = 53).
  { apply digits2_pos_unique. rewrite Hval. simpl (53 - 1). nia. }
  unfold float64_of_int, binary_normalize, binary_round, fexp, emin,
    prec64, emax64, shl_align.
  std_Z. fold d.
  replace (Z.max (d + 0 - 53) (3 - 1024 - 53)) with (Z.neg s) by lia.
  change (Z.neg s - 0) with (Z.neg s). cbv iota beta.
  unfold binary_round_aux, shr_fexp, fexp, emin. std_Z.
  change (Zdigits2 (Z.pos (Pos.iter xO p s)))
    with (Z.pos (digits2_pos (Pos.iter xO p s))).
  rewrite Hdig.
  replace (Z.max (53 + Z.neg s - 53) (3 - 1024 - 53) - Z.neg s) with 0 by lia.
  cbn [shr shr_record_of_loc shr_m loc_of_shr_record round_nearest_even].
  change (Zdigits2 (Z.pos (Pos.iter xO p s)))
    with (Z.pos (digits2_pos (Pos.iter xO p s))).
  rewrite Hdig.
  replace (Z.max (53 + Z.neg s - 53) (3 - 1024 - 53) - Z.neg s) with 0 by lia.
  cbn [shr shr_record_of_loc shr_m].
  by exponent_in_range.
Qed.

(** The arithmetic of the threshold: a mantissa within half a unit of
    [n * 0.9] (as a binary64 product) has the integer part [9 n / 10]. *)
Lemma threshold_arith (n s k M1 : Z) :
  3 <= s <= 52 -> k = 52 \/ k = 53 -> 0 < n -> n * 2 ^ s < 2 ^ 53 ->
  let P := n * 2 ^ s * 8106479329266893 in
  P / 2 ^ k <= M1 ->
  2 ^ (k + 1) * M1 <= 2 * P + 2 ^ k ->
  M1 / 2 ^ (s + 53 - k) = 9 * n / 10.
Proof.
  intros Hs Hk Hn Hmz P Hlo Hhi.
  assert (HA : 8 <= 2 ^ s).
  { change 8 with (2 ^ 3). apply Z.pow_le_mono_r; lia. }
  set (A := 2 ^ s) in *.
  set (F := 9 * n / 10).
  pose proof (Z.div_mod (9 * n) 10 ltac:(lia)) as HF.
  pose proof (Z.mod_pos_bound (9 * n) 10 ltac:(lia)) as HF'.
  fold F in HF.
  assert (HJ : 2 ^ (s + 53 - k) * 2 ^ k = 2 ^ 53 * A).
  { rewrite <- Z.pow_add_r by lia. unfold A.
    rewrite <- Z.pow_add_r by lia. f_equal. lia. }
  assert (HB : 0 < 2 ^ k) by (apply Z.pow_pos_nonneg; lia).
  assert (HJ0 : 0 < 2 ^ (s + 53 - k)) by (apply Z.pow_pos_nonneg; lia).
  assert (HB1 : 2 ^ (k + 1) = 2 * 2 ^ k).
  { replace (k + 1) with (1 + k) by lia. by rewrite Z.pow_add_r by lia. }
  assert (HB2 : 2 ^ k <= 2 ^ 53) by (apply Z.pow_le_mono_r; lia).
  set (B := 2 ^ k) in *. set (J := 2 ^ (s + 53 - k)) in *.
  rewrite HB1 in Hhi.
  assert (Hlower : F * J <= M1).
  { etransitivity; [|exact Hlo].
    apply Z.div_le_lower_bound; [done|].
    replace (B * (F * J)) with (F * (J * B)) by ring.
    rewrite HJ. unfold P. simpl (2 ^ 53). nia. }
  assert (Hupper : M1 < (F + 1) * J).
  { assert (2 * B * M1 < 2 * (F + 1) * (J * B)); [|nia].
    rewrite HJ. simpl (2 ^ 53) in *. unfold P in Hhi. nia. }
  symmetry. apply (Z.div_unique_pos _ _ _ (M1 - F * J)); lia.
Qed.

(** Below [2^50] the threshold is nine tenths of [maxSize], rounded down. *)
Lemma threshold_floor (n : Z) : 0 <= n < 2 ^ 50 -> threshold n = 9 * n / 10.
Proof.
  intros [Hn0 Hn]. destruct n as [|p|p]; [done| |lia].
  pose proof (digits2_pos_bounds p) as [Hlo Hhi].
  set (d := Z.pos (digits2_pos p)) in *.
  assert (Hd : d <= 50).
  { destruct (Z_lt_le_dec 50 d) as [Hlt|]; [|done].
    assert (2 ^ 50 <= 2 ^ (d - 1)) by (apply Z.pow_le_mono_r; lia). lia. }
  destruct (float64_of_int_exact p ltac:(fold d; lia)) as (s & Hs & Hf).
  fold d in Hs.
  unfold threshold. rewrite Hf.
  unfold float64_mul, maxSizeThreshold, SFmul. simpl xorb.
  set (mz := Pos.iter xO p s).
  pose proof (iter_xO_value p s) as Hval. fold mz in Hval.
  assert (Hs0 : 0 < 2 ^ Z.pos s) by (apply Z.pow_pos_nonneg; lia).
  assert (Hpow : 2 ^ 53 = 2 ^ d * 2 ^ Z.pos s).
  { rewrite <- Z.pow_add_r by lia. f_equal. lia. }
  assert (Hpow' : 2 ^ 52 = 2 ^ (d - 1) * 2 ^ Z.pos s).
  { rewrite <- Z.pow_add_r by lia. f_equal. lia. }
  assert (Hmz : 2 ^ 52 <= Z.pos mz < 2 ^ 53) by (rewrite Hval; nia).
  set (P := (mz * 8106479329266893)%positive).
  assert (HP : Z.pos P = Z.pos p * 2 ^ Z.pos s * 8106479329266893).
  { unfold P. by rewrite Pos2Z.inj_mul, Hval. }
  assert (HPr : 2 ^ 104 <= Z.pos P < 2 ^ 106).
  { unfold P. rewrite Pos2Z.inj_mul. simpl (2 ^ _) in *. nia. }
  set (D := Z.pos (digits2_pos P)).
  assert (HD : D = 105 \/ D = 106).
  { pose proof (digits2_pos_bounds P) as [HDlo HDhi]. fold D in HDlo, HDhi.
    destruct (Z_lt_le_dec D 105) as [Hlt|Hge].
    - assert (2 ^ D <= 2 ^ 104) by (apply Z.pow_le_mono_r; lia). lia.
    - destruct (Z_lt_le_dec 106 D) as [Hgt|Hle]; [|lia].
      assert (2 ^ 106 <= 2 ^ (D - 1)) by (apply Z.pow_le_mono_r; lia). lia. }
  destruct (binary_round_aux_long P (Z.neg s + -53))
    as (M & e & M1 & Hres & HM1lo & HM1hi & He); fold D; [lia..|].
  rewrite Hres. unfold int_of_float64.
  set (k := D - 53) in *.
  assert (Hk : k = 52 \/ k = 53) by lia.
  assert (Harith : M1 / 2 ^ (Z.pos s + 53 - k) = 9 * Z.pos p / 10).
  { assert (Hd1 : 1 <= d) by (unfold d; lia).
    apply threshold_arith.
    - lia.
    - done.
    - lia.
    - rewrite <- Hval. lia.
    - by rewrite <- HP.
    - by rewrite <- HP. }
  assert (Hj : 0 < Z.pos s + 53 - k) by lia.
  assert (Hval_e : Z.pos M / 2 ^ (- e) = 9 * Z.pos p / 10).
  { rewrite <- Harith. destruct He as [[-> <-]|[-> <-]].
    - f_equal. f_equal. lia.
    - replace (Z.pos s + 53 - k) with (1 + (- (Z.neg s + -53 + k + 1)))
        by lia.
      rewrite Z.pow_add_r by lia. simpl (2 ^ 1).
      rewrite Z.div_mul_cancel_l; [done| |lia].
      apply Z.pow_nonzero; lia. }
  assert (He0 : e < 0) by (destruct He as [[-> _]|[-> _]]; lia).
  cbv zeta. rewrite (decide_False (P := 0 <= e)) by lia. rewrite Hval_e.
  rewrite decide_True; [done|].
  assert (0 <= 9 * Z.pos p / 10) by (apply Z.div_pos; lia).
  assert (9 * Z.pos p / 10 < 2 ^ 63).
  { apply Z.div_lt_upper_bound; [lia|]. simpl (2 ^ _) in *. lia. }
  lia.
Qed.

(** ** Negative size limits *)




(** ** ShouldShip *)



(** The bound on the size limit is where the product stops being exact to
    the unit: for [2^51 + 3] it rounds up to the next integer.  A batch
    would have to hold some [2 * 10^15] entries for [ShouldShip] to show
    it.  For a negative limit the fraction is discarded towards zero, not
    downwards. *)
Remark threshold_outside_the_range :
  threshold (2 ^ 51 + 3) = 2026619832316726
  /\ 9 * (2 ^ 51 + 3) / 10 = 2026619832316725
  /\ threshold (-1) = 0
  /\ 9 * -1 / 10 = -1.
Proof. by vm_compute. Qed.

(** * Further properties of the batch *)

(** ** Appending entries *)

Lemma frame_snoc (lines : list bytes) (line : bytes) :
  frame (lines ++ [line]) = frame lines ++ newline :: line.
Proof.
  unfold frame. rewrite map_app, concat_app. simpl. by rewrite app_nil_r.
Qed.

Lemma appended_same (b b' : Batch) :
  buf b' = buf b -> count b' = count b -> age b' = age b ->
  metadataBytes b' = metadataBytes b ->
  maxSize b' = maxSize b -> maxAge b' = maxAge b ->
  appended [] b b'.
Proof.
  intros Hb Hc Ha Hm Hs Hg. unfold appended, frame. simpl.
  rewrite app_nil_r. repeat split; try done. lia.
Qed.

Lemma appended_trans (e1 e2 : list bytes) (b1 b2 b3 : Batch) :
  0 <= count b1 -> appended e1 b1 b2 -> appended e2 b2 b3 ->
  appended (e1 ++ e2) b1 b3.
Proof.
  intros Hc (Hb1 & Hc1 & Hm1 & Hs1 & Hg1 & Ha1)
    (Hb2 & Hc2 & Hm2 & Hs2 & Hg2 & Ha2).
  unfold appended. rewrite Hb2, Hb1, Hc2, Hc1, length_app, frame_app.
  repeat split; try congruence.
  - by rewrite app_assoc.
  - lia.
  - intros Hcase.
    assert (He : count b1 <> 0 \/ (e1 = [] /\ e2 = [])).
    { destruct Hcase as [?|Hnil]; [by left|right].
      by apply app_eq_nil in Hnil. }
    rewrite Ha2, Ha1; [done|..].
    + destruct He as [?|[? _]]; auto.
    + destruct He as [?|[_ ?]]; [left; lia|auto].
Qed.

Lemma appended_set_invocations (entries : list bytes)
    (m : gmap string Invocation) (b b' : Batch) :
  appended entries b b' -> appended entries b (set_invocations m b').
Proof. by intros (? & ? & ? & ? & ? & ?). Qed.

(** With a size limit that is not negative, [count] stays within the limit
    and [addData] adds one without overflow. *)
Lemma addData_appended (now : Z) (data : bytes) (b b' : Batch) :
  batch_inv b -> 0 <= maxSize b ->
  addData now data b = (b', None) -> appended [data] b b'.
Proof.
  intros Hinv Hsize Hadd.
  destruct (inv_int b Hinv) as [Hci Hsi].
  destruct (inv_count b Hinv) as [_ Hle]. specialize (Hle Hsize).
  destruct (addData_cases now data b)
    as [[_ E]|[(_ & _ & E)|(_ & Hc & b1 & E & Hb & Hcnt & Ha & Hm & _ & Hs
                             & Hg & Hr)]];
    rewrite E in Hadd; [done..|].
  injection Hadd as <-. unfold appended, frame, int_range in *. simpl.
  rewrite app_nil_r, Hb, Hcnt, Ha, wrap64_small by (unfold int_range; lia).
  repeat split; try done.
  intros [Hnz|?]; [|done]. by rewrite decide_False by done.
Qed.

Lemma count_nonneg (b : Batch) : batch_inv b -> 0 <= maxSize b -> 0 <= count b.
Proof. intros Hinv Hsize. destruct (inv_count b Hinv) as [[?|?] _]; lia. Qed.

Section Appending.
Context `{Externals}.

Lemma AddAgentData_event_appended (now : Z) (key : string) (line : bytes)
    (b b' : Batch) (e : option Err) :
  batch_inv b -> 0 <= maxSize b ->
  AddAgentData_event now key line b = Ret (b', e) ->
  exists entries, appended entries b b'.
Proof.
  intros Hinv Hsize Hev.
  destruct (invocations b !! key) as [inc|] eqn:Hinc.
  - destruct (AddAgentData_event_cases now key line b inc Hinc)
      as [[_ E]|[_ E]]; rewrite E in Hev.
    + injection Hev as <- <-. exists []. by apply appended_same.
    + injection Hev as Hadd. destruct e as [e|].
      * apply addData_error in Hadd as [-> _].
        exists []. by apply appended_same.
      * exists [line]. by apply (addData_appended now).
  - unfold AddAgentData_event in Hev. by rewrite Hinc in Hev.
Qed.

Lemma AddAgentData_loop_appended (now : Z) (key : string)
    (events : list bytes) (b b' : Batch) (e : option Err) :
  batch_inv b -> 0 <= maxSize b ->
  AddAgentData_loop now key events b = Ret (b', e) ->
  exists entries, appended entries b b'.
Proof.
  revert b. induction events as [|line events IH]; intros b Hinv Hsize; simpl.
  - intros [= <- <-]. exists []. by apply appended_same.
  - destruct (AddAgentData_event now key line b) as [[b1 [e1|]]|] eqn:Hev;
      simpl; [| |done].
    + intros [= <- <-]. by eapply AddAgentData_event_appended.
    + intros Hloop.
      destruct (AddAgentData_event_appended _ _ _ _ _ _ Hinv Hsize Hev)
        as [e1 H1].
      assert (Hs1 : maxSize b1 = maxSize b) by apply H1.
      destruct (IH b1) as [e2 H2];
        [by eapply AddAgentData_event_inv|lia|done|].
      exists (e1 ++ e2).
      eapply appended_trans; [by apply count_nonneg|done..].
Qed.

Lemma finalizeInvocation_appended (now : Z) (reqID status : string)
    (b : Batch) :
  batch_inv b -> 0 <= maxSize b ->
  exists entries, appended entries b (finalizeInvocation now reqID status b).1.
Proof.
  intros Hinv Hsize. unfold finalizeInvocation.
  destruct (invocations b !! reqID) as [inc|];
    [|exists []; by apply appended_same].
  destruct (Finalize inc status now) as [proxyTxn|].
  - destruct (addData now proxyTxn b) as [b1 [e1|]] eqn:Hadd.
    + apply addData_error in Hadd as [-> _].
      exists []. by apply appended_same.
    + exists [proxyTxn]. apply appended_set_invocations.
      by apply (addData_appended now).
  - exists []. by apply appended_same.
Qed.

Lemma OnShutdown_loop_appended (now : Z) (status : string)
    (order : list string) (b : Batch) :
  batch_inv b -> 0 <= maxSize b ->
  exists entries, appended entries b (OnShutdown_loop now status order b).1.
Proof.
  revert b. induction order as [|key order IH]; intros b Hinv Hsize; simpl.
  { exists []. by apply appended_same. }
  destruct (invocations b !! key) as [inc|]; [|by apply IH].
  destruct (finalizeInvocation_appended now (RequestID inc) status b Hinv Hsize)
    as [e1 H1].
  pose proof (finalizeInvocation_inv now (RequestID inc) status b Hinv) as Hi1.
  destruct (finalizeInvocation now (RequestID inc) status b) as [b1 [err|]];
    simpl in *; [by exists e1|].
  assert (Hs1 : maxSize b1 = maxSize b) by apply H1.
  destruct (IH b1 Hi1 ltac:(lia)) as [e2 H2].
  exists (e1 ++ e2). eapply appended_trans; [by apply count_nonneg|done..].
Qed.

End Appending.

Lemma Call_is_reset (c : Call) : c = CallReset \/ c <> CallReset.
Proof. destruct c; auto. Qed.

Section Calls.
Context `{Externals}.

Lemma AddAgentData_metadata_fields (line : bytes) (b : Batch) :
  count (AddAgentData_metadata line b) = count b
  /\ age (AddAgentData_metadata line b) = age b
  /\ maxSize (AddAgentData_metadata line b) = maxSize b
  /\ maxAge (AddAgentData_metadata line b) = maxAge b
  /\ invocations (AddAgentData_metadata line b) = invocations b
  /\ currentlyExecutingRequestID (AddAgentData_metadata line b)
     = currentlyExecutingRequestID b.
Proof.
  unfold AddAgentData_metadata. by destruct (decide (metadataBytes b = 0)).
Qed.

(** What a call other than [Reset] does to the buffer and the counters: it
    appends entries, after [AddAgentData] may have written the metadata. *)
Lemma exec_appended (c : Call) (b b' : Batch) :
  batch_inv b -> 0 <= maxSize b -> c <> CallReset -> exec c b = Ret b' ->
  exists entries,
    appended entries b b'
    \/ exists line0, appended entries (AddAgentData_metadata line0 b) b'.
Proof.
  intros Hinv Hsize Hc Hexec. destruct c; simpl in Hexec; [..|done].
  - injection Hexec as <-. exists []. left. by apply appended_same.
  - injection Hexec as <-. exists []. left. unfold OnAgentInit.
    destruct (invocations b !! currentlyExecutingRequestID b);
      by apply appended_same.
  - destruct (AddAgentData now data encoding b) as [[b1 e1]|] eqn:Hadd;
      simpl in Hexec; [|done].
    injection Hexec as <-. unfold AddAgentData in Hadd.
    destruct (GetUncompressedBytes data encoding) as [raw|err];
      [|injection Hadd as <- <-; exists []; left; by apply appended_same].
    destruct (Split raw) as [|line0 events];
      [injection Hadd as <- <-; exists []; left; by apply appended_same|].
    destruct (invocations b !! currentlyExecutingRequestID b);
      [|injection Hadd as <- <-; exists []; left; by apply appended_same].
    destruct (AddAgentData_metadata_fields line0 b)
      as (_ & _ & Hs & _ & _ & Hcur).
    rewrite <- Hcur in Hadd.
    apply AddAgentData_loop_appended in Hadd as [entries Hadd];
      [|by apply AddAgentData_metadata_inv|lia].
    exists entries. right. by exists line0.
  - injection Hexec as <-.
    destruct (finalizeInvocation_appended now reqID status b Hinv Hsize)
      as [entries Happ].
    exists entries. by left.
  - injection Hexec as <-.
    destruct (OnShutdown_loop_appended now status order b Hinv Hsize)
      as [entries Happ].
    exists entries. by left.
  - injection Hexec as <-. unfold AddLambdaData.
    destruct (addData now d b) as [b1 [e1|]] eqn:Hadd; simpl.
    + apply addData_error in Hadd as [-> _].
      exists []. left. by apply appended_same.
    + exists [d]. left. by apply (addData_appended now).
Qed.

(** The limits of a batch are those it was made with. *)
Lemma exec_limits (c : Call) (b b' : Batch) :
  batch_inv b -> 0 <= maxSize b -> exec c b = Ret b' ->
  maxSize b' = maxSize b /\ maxAge b' = maxAge b.
Proof.
  intros Hinv Hsize Hexec.
  destruct (Call_is_reset c) as [->|Hc].
  - simpl in Hexec. rewrite Reset_returns in Hexec by apply (inv_metadata b Hinv).
    by injection Hexec as <-.
  - destruct (exec_appended c b b' Hinv Hsize Hc Hexec)
      as [entries [Happ|[line0 Happ]]].
    + split; apply Happ.
    + destruct (AddAgentData_metadata_fields line0 b) as (_ & _ & Hs & Hg & _).
      destruct Happ as (_ & _ & _ & Hs' & Hg' & _). split; congruence.
Qed.

Lemma framed_appended (entries : list bytes) (b b' : Batch) :
  batch_inv b -> framed b -> appended entries b b' -> framed b'.
Proof.
  intros Hinv (es & Hbuf & Hcnt) (Hb & Hc & Hm & _).
  pose proof (inv_metadata b Hinv) as Hrange.
  exists (es ++ entries). rewrite Hm, Hc, Hcnt, length_app. split; [|lia].
  rewrite Hb, take_app_le by lia.
  rewrite Hbuf at 1. by rewrite frame_app, app_assoc.
Qed.

Lemma framed_metadata (line : bytes) (b : Batch) :
  batch_inv b -> framed b -> framed (AddAgentData_metadata line b).
Proof.
  intros Hinv Hframed. unfold AddAgentData_metadata.
  destruct (decide (metadataBytes b = 0)) as [Hz|]; [|done].
  destruct (metadata_absent_empty b Hinv Hz) as [Hbuf Hc].
  exists []. simpl. rewrite Hbuf, Hc. simpl.
  rewrite Nat2Z.id, firstn_all, app_nil_r. done.
Qed.

Lemma exec_framed (c : Call) (b b' : Batch) :
  batch_inv b -> 0 <= maxSize b -> framed b -> exec c b = Ret b' -> framed b'.
Proof.
  intros Hinv Hsize Hframed Hexec.
  destruct (Call_is_reset c) as [->|Hc].
  - simpl in Hexec. rewrite Reset_returns in Hexec by apply (inv_metadata b Hinv).
    injection Hexec as <-. exists []. simpl.
    rewrite take_take, Nat.min_id. unfold frame. simpl.
    by rewrite app_nil_r.
  - destruct (exec_appended c b b' Hinv Hsize Hc Hexec)
      as [entries [Happ|[line0 Happ]]].
    + by eapply framed_appended.
    + eapply framed_appended; [|by apply framed_metadata|done].
      by apply AddAgentData_metadata_inv.
Qed.

End Calls.

Lemma buffer_limits_of_reachable `{Externals} (size0 age0 : Z) (b : Batch) :
  reachable size0 age0 b -> 0 <= size0 -> batch_inv b /\ maxSize b = size0.
Proof.
  intros Hreach Hsize. split; [by eapply reachable_inv|].
  induction Hreach as [Hr|b b' c Hreach IH _ Hexec]; [done|].
  pose proof (reachable_inv _ _ _ Hreach) as Hinv.
  destruct (exec_limits c b b' Hinv ltac:(lia) Hexec) as [Hs' _]. congruence.
Qed.

(** X7.  The wire format of a batch made with a size limit that is not
    negative: in every reachable state the buffer is the metadata prefix
    followed by exactly [count] entries, each written after a newline, and
    [count] lies between zero and the size limit; the limits are those given
    to [NewBatch]. *)
Theorem buffer_is_framed `{Externals} (size0 age0 : Z) (b : Batch) :
  reachable size0 age0 b -> 0 <= size0 ->
  (exists entries,
     buf b = take (Z.to_nat (metadataBytes b)) (buf b) ++ frame entries
     /\ count b = Z.of_nat (length entries))
  /\ 0 <= count b <= maxSize b
  /\ maxSize b = size0 /\ maxAge b = age0.
Proof.
  intros Hreach Hsize.
  assert (Hall : framed b /\ maxSize b = size0 /\ maxAge b = age0).
  { induction Hreach as [Hr|b b' c Hreach IH _ Hexec].
    - split; [|done]. by exists [].
    - destruct IH as (Hframed & Hs & Hg).
      pose proof (reachable_inv _ _ _ Hreach) as Hinv.
      destruct (exec_limits c b b' Hinv ltac:(lia) Hexec) as [Hs' Hg'].
      split; [|split; congruence].
      by apply (exec_framed c b b' Hinv ltac:(lia)). }
  destruct Hall as (Hframed & Hs & Hg).
  pose proof (reachable_inv _ _ _ Hreach) as Hinv.
  split; [done|]. split; [|done].
  split; [apply count_nonneg; [done|lia]|].
  apply (inv_count b Hinv). lia.
Qed.

(** The state of scenario S1 after the agent's data, with one more entry
    from the logs API, is reachable. *)
Lemma S1_with_entry_reachable :
  reachable 10 1000
    (AddLambdaData 160 (bytes_of "log") (Scenario.S1_after_agent 10)).1.
Proof.
  set (b0 := NewBatch 10 1000).
  set (b1 := RegisterInvocation "R1" "arn:aws:lambda:fn" 3000 100 b0).
  assert (H0 : reachable 10 1000 b0).
  { apply reachable_new. unfold int_range. lia. }
  assert (H1 : reachable 10 1000 b1).
  { by apply (reachable_call 10 1000 b0 b1
                (CallRegisterInvocation "R1" "arn:aws:lambda:fn" 3000 100)
                H0 I). }
  assert (H2 : reachable 10 1000 (Scenario.S1_announced 10)).
  { by apply (reachable_call 10 1000 b1 (Scenario.S1_announced 10)
                (CallOnAgentInit "T1" "Tr1") H1 I). }
  assert (H3 : reachable 10 1000 (Scenario.S1_after_agent 10)).
  { apply (reachable_call 10 1000 (Scenario.S1_announced 10)
             (Scenario.S1_after_agent 10)
             (CallAddAgentData 150 Scenario.S1_body "identity") H2 I).
    by vm_compute. }
  by apply (reachable_call 10 1000 (Scenario.S1_after_agent 10) _
              (CallAddLambdaData 160 (bytes_of "log")) H3 I).
Qed.

Lemma buffer_is_framed_witness :
  let b := (AddLambdaData 160 (bytes_of "log") (Scenario.S1_after_agent 10)).1
  in
  (exists entries,
     buf b = take (Z.to_nat (metadataBytes b)) (buf b) ++ frame entries
     /\ count b = Z.of_nat (length entries))
  /\ 0 <= count b <= maxSize b
  /\ maxSize b = 10 /\ maxAge b = 1000.
Proof.
  intros b. apply (buffer_is_framed 10 1000 b S1_with_entry_reachable). lia.
Defined.

Section Sticky.
Context `{Externals}.

Lemma ShouldShip_later (now now' : Z) (b : Batch) :
  now <= now' -> ShouldShip now b = true -> ShouldShip now' b = true.
Proof.
  unfold ShouldShip.
  rewrite !orb_true_iff, !andb_true_iff, !negb_true_iff, !bool_decide_eq_true,
    !bool_decide_eq_false.
  intros Hle [?|[? ?]]; [by left|right]. split; [done|lia].
Qed.

Lemma ShouldShip_after_call (now : Z) (c : Call) (b b' : Batch) :
  batch_inv b -> 0 <= maxSize b -> c <> CallReset -> exec c b = Ret b' ->
  ShouldShip now b = true -> ShouldShip now b' = true.
Proof.
  intros Hinv Hsize Hc Hexec.
  assert (Hfacts : count b <= count b' /\ maxSize b' = maxSize b
                   /\ maxAge b' = maxAge b
                   /\ (count b <> 0 -> age b' = age b)).
  { destruct (exec_appended c b b' Hinv Hsize Hc Hexec)
      as [entries [Happ|[line0 Happ]]].
    - destruct Happ as (_ & Hcnt & _ & Hs & Hg & Ha).
      repeat split; [lia|done|done|auto].
    - destruct (AddAgentData_metadata_fields line0 b)
        as (Hc1 & Ha1 & Hs1 & Hg1 & _).
      destruct Happ as (_ & Hcnt & _ & Hs & Hg & Ha).
      rewrite Hc1, Ha1 in *.
      repeat split; [lia|congruence|congruence|auto]. }
  destruct Hfacts as (Hcnt & Hs & Hg & Ha).
  unfold ShouldShip.
  rewrite !orb_true_iff, !andb_true_iff, !negb_true_iff, !bool_decide_eq_true,
    !bool_decide_eq_false.
  rewrite Hs, Hg. intros [?|[Hage ?]]; [left; lia|right].
  assert (Hnz : count b <> 0).
  { intros Hz. by destruct (inv_empty b Hinv Hz). }
  by rewrite (Ha Hnz).
Qed.

End Sticky.

(** X10.  The decision to ship is kept until the batch is reset: in a batch
    made with a size limit that is not negative, once [ShouldShip] holds it
    holds at every later time after every run of calls without [Reset]. *)
Theorem ShouldShip_sticky `{Externals} (size0 age0 now now' : Z)
    (b b' : Batch) :
  reachable size0 age0 b -> 0 <= size0 ->
  calls_without_reset b b' -> now <= now' ->
  ShouldShip now b = true -> ShouldShip now' b' = true.
Proof.
  intros Hreach Hsize Hcalls Hle Hship.
  apply (ShouldShip_later now now'); [done|].
  destruct (buffer_limits_of_reachable size0 age0 b Hreach Hsize)
    as [Hinv Hs].
  clear Hreach. revert Hinv Hs Hship.
  induction Hcalls as [|b b1 b2 c Hc _ Hexec _ IH]; intros Hinv Hs Hship;
    [done|].
  destruct (exec_limits c b b1 Hinv ltac:(lia) Hexec) as [Hs1 _].
  apply IH; [by eapply exec_inv|congruence|].
  by apply (ShouldShip_after_call now c b b1 Hinv ltac:(lia)).
Qed.

Lemma ShouldShip_sticky_witness :
  let b := (AddLambdaData 160 (bytes_of "log") (Scenario.S1_after_agent 10)).1
  in
  ShouldShip 1300 (OnLambdaLogRuntimeDone 1200 "R1" "success" b).1 = true.
Proof.
  intros b.
  set (b' := (OnLambdaLogRuntimeDone 1200 "R1" "success" b).1).
  apply (ShouldShip_sticky 10 1000 1161 1300 b b' S1_with_entry_reachable).
  - lia.
  - apply (calls_without_reset_cons b b' b'
             (CallOnLambdaLogRuntimeDone 1200 "R1" "success"));
      [done|done|reflexivity|apply calls_without_reset_nil].
  - lia.
  - by vm_compute.
Defined.

(** ** The body of the agent and the buffer *)

Lemma frame_join (lines : list bytes) :
  lines <> [] -> frame lines = newline :: join lines.
Proof. by destruct lines. Qed.

Lemma join_Split (raw : bytes) : join (Split raw) = raw.
Proof.
  induction raw as [|c raw IH]; [done|]. simpl.
  destruct (decide (c = newline)) as [->|Hc].
  - simpl. rewrite frame_join by apply Split_nonempty. by rewrite IH.
  - pose proof (Split_nonempty raw) as Hne.
    destruct (Split raw) as [|l ls]; [done|]. simpl in *. by rewrite IH.
Qed.

Lemma length_Split (raw : bytes) : length (Split raw) = S (newlines raw).
Proof.
  unfold newlines. induction raw as [|c raw IH]; [done|].
  simpl Split. rewrite filter_cons.
  destruct (decide (c = newline)) as [->|Hc]; simpl.
  - by rewrite IH.
  - pose proof (Split_nonempty raw) as Hne.
    destruct (Split raw) as [|l ls]; [done|]. simpl in *. done.
Qed.

Section Room.
Context `{Externals}.

(** The loop of [AddAgentData] for an invocation that does not wait for a
    transaction, on a batch with metadata: it appends as many events as the
    batch has room for. *)
Lemma AddAgentData_loop_room (now : Z) (key : string) (events : list bytes)
    (b : Batch) (inc : Invocation) :
  batch_inv b -> 0 <= maxSize b -> metadataBytes b <> 0 ->
  invocations b !! key = Some inc -> NeedProxyTransaction inc = false ->
  let room := Z.to_nat (maxSize b - count b) in
  exists b',
    AddAgentData_loop now key events b
    = Ret (b', if decide (length events <= room)%nat then None
               else Some ErrBatchFull)
    /\ appended (take room events) b b'
    /\ invocations b' = invocations b
    /\ (count b = 0 -> events <> [] -> room <> 0%nat -> age b' = now).
Proof.
  revert b.
  induction events as [|line events IH];
    intros b Hinv Hsize Hmeta Hinc Hneed room.
  { exists b. simpl. rewrite take_nil.
    split; [done|]. split; [by apply appended_same|done]. }
  pose proof (count_nonneg b Hinv Hsize) as Hc0.
  destruct (inv_count b Hinv) as [_ Hle]. specialize (Hle Hsize).
  destruct (inv_int b Hinv) as [Hci Hsi]. unfold int_range in *.
  simpl AddAgentData_loop.
  destruct (AddAgentData_event_cases now key line b inc Hinc) as [[E _]|[_ E]].
  { unfold observes in E. by rewrite Hneed in E. }
  rewrite E. simpl.
  destruct (decide (count b = maxSize b)) as [Hfull|Hfree].
  - rewrite addData_full by done.
    assert (Hroom : room = 0%nat) by (unfold room; lia).
    exists b. rewrite Hroom. simpl.
    split; [done|]. split; [by apply appended_same|done].
  - destruct (addData now line b) as [b1 e1] eqn:Hadd.
    pose proof Hadd as Hacc. rewrite addData_accepts in Hacc by done.
    injection Hacc as Hb1 He1. subst e1.
    pose proof (addData_appended now line b b1 Hinv Hsize Hadd) as Happ.
    assert (Hinv1 : batch_inv b1).
    { replace b1 with (addData now line b).1 by (by rewrite Hadd).
      by apply addData_preserves_inv. }
    assert (Hi1 : invocations b1 = invocations b) by (by rewrite <- Hb1).
    assert (Hs1 : maxSize b1 = maxSize b) by apply Happ.
    assert (Hc1 : count b1 = count b + 1).
    { destruct Happ as (_ & Hc1 & _). simpl in Hc1. lia. }
    assert (Hm1 : metadataBytes b1 = metadataBytes b) by apply Happ.
    destruct (IH b1 Hinv1 ltac:(lia) ltac:(congruence)
                ltac:(by rewrite Hi1) Hneed)
      as (b' & Hloop & Happ' & Hi' & _).
    assert (Hroom : room = S (Z.to_nat (maxSize b1 - count b1))).
    { unfold room. lia. }
    exists b'. rewrite Hroom. simpl.
    split.
    { rewrite Hloop. f_equal. f_equal.
      destruct (decide (length events <= Z.to_nat (maxSize b1 - count b1))%nat);
        destruct (decide (S (length events)
                          <= S (Z.to_nat (maxSize b1 - count b1)))%nat);
        try done; lia. }
    split; [|split; [congruence|]].
    + apply (appended_trans [line] _ b b1 b'); done.
    + intros Hz _ _.
      destruct Happ' as (_ & _ & _ & _ & _ & Ha').
      rewrite Ha' by (left; lia). rewrite <- Hb1. simpl.
      by rewrite decide_True.
Qed.

End Room.

(** X4.  [bytes.Split] never returns an empty slice, so the early return of
    [AddAgentData] for a body without lines is never taken: an empty body
    goes on to the lookup of the current invocation.  Without an invocation
    for the current request ID the call fails; with one it returns no error
    and leaves the batch exactly as it was. *)
Theorem AddAgentData_empty_body `{Externals} (now : Z) (data : bytes)
    (encoding : string) (b : Batch) :
  GetUncompressedBytes data encoding = inl [] ->
  (forall raw, Split raw <> [])
  /\ (invocations b !! currentlyExecutingRequestID b = None ->
      AddAgentData now data encoding b
      = Ret (b, Some (ErrNoInvocation (currentlyExecutingRequestID b))))
  /\ (is_Some (invocations b !! currentlyExecutingRequestID b) ->
      AddAgentData now data encoding b = Ret (b, None)).
Proof.
  intros Hraw. split; [apply Split_nonempty|].
  unfold AddAgentData. rewrite Hraw. simpl. split.
  - by intros ->.
  - intros [inc ->]. simpl. f_equal. f_equal.
    unfold AddAgentData_metadata.
    destruct (decide (metadataBytes b = 0)) as [Hz|]; [|done].
    destruct b. simpl in *. rewrite app_nil_r. by subst.
Qed.

Lemma AddAgentData_empty_body_witness :
  AddAgentData 150 [] "identity" (NewBatch 10 1000)
  = Ret (NewBatch 10 1000, Some (ErrNoInvocation EmptyString))
  /\ AddAgentData 150 [] "identity" (Scenario.S1_announced 10)
     = Ret (Scenario.S1_announced 10, None).
Proof.
  split.
  - apply (AddAgentData_empty_body 150 [] "identity" (NewBatch 10 1000));
      reflexivity.
  - apply (AddAgentData_empty_body 150 [] "identity"
             (Scenario.S1_announced 10)); [reflexivity|].
    apply (bool_decide_unpack _). by vm_compute.
Defined.



(** X5.  The first body of the agent passes through unchanged.  On a
    reachable batch without metadata, for a current invocation that does not
    wait for a transaction, a body whose first line is not empty and whose
    lines fit under the size limit is taken whole: afterwards the buffer is
    the decoded body byte for byte, [metadataBytes] is the length of its
    first line, and [count] is the number of its newline bytes (a trailing
    newline counts as one more, empty, entry). *)
Theorem AddAgentData_passes_body_through `{Externals} (now : Z)
    (data raw : bytes) (encoding : string) (b : Batch) (inc : Invocation) :
  batch_inv b -> 0 <= maxSize b -> metadataBytes b = 0 ->
  GetUncompressedBytes data encoding = inl raw ->
  hd [] (Split raw) <> [] ->
  invocations b !! currentlyExecutingRequestID b = Some inc ->
  NeedProxyTransaction inc = false ->
  Z.of_nat (newlines raw) <= maxSize b ->
  exists b',
    AddAgentData now data encoding b = Ret (b', None)
    /\ ToAPMData b' = raw
    /\ Count b' = Z.of_nat (newlines raw)
    /\ metadataBytes b' = Z.of_nat (length (hd [] (Split raw)))
    /\ invocations b' = invocations b
    /\ (newlines raw <> 0%nat -> age b' = now).
Proof.
  intros Hinv Hsize Hmeta Hraw Hfirst Hinc Hneed Hfit.
  pose proof (join_Split raw) as Hjoin.
  pose proof (length_Split raw) as Hlen.
  destruct (Split raw) as [|line0 events] eqn:Hsplit; [done|].
  simpl in Hfirst, Hlen. injection Hlen as Hlen.
  destruct (metadata_absent_empty b Hinv Hmeta) as [Hbuf Hcount].
  rewrite (AddAgentData_unfold now data raw line0 encoding events b inc)
    by done.
  set (b1 := AddAgentData_metadata line0 b).
  destruct (AddAgentData_metadata_fields line0 b)
    as (Hc1 & Ha1 & Hs1 & Hg1 & Hi1 & Hr1).
  fold b1 in Hc1, Ha1, Hs1, Hg1, Hi1, Hr1.
  assert (Hb1 : buf b1 = line0
                /\ metadataBytes b1 = Z.of_nat (length line0)).
  { unfold b1, AddAgentData_metadata. rewrite decide_True by done. simpl.
    by rewrite Hbuf. }
  destruct Hb1 as [Hb1 Hm1].
  assert (Hm1' : metadataBytes b1 <> 0).
  { rewrite Hm1. destruct line0; [done|]. simpl. lia. }
  destruct (AddAgentData_loop_room now (currentlyExecutingRequestID b) events
              b1 inc) as (b' & Hloop & (Hbuf' & Hcnt' & Hm' & _) & Hi' & Hage');
    [by apply AddAgentData_metadata_inv|lia|done|by rewrite Hi1|done|].
  rewrite Hs1, Hc1, Hcount in *.
  assert (Hroom : (length events <= Z.to_nat (maxSize b - 0))%nat) by lia.
  rewrite decide_True in Hloop by done.
  rewrite take_ge in Hbuf', Hcnt' by done.
  exists b'. split; [done|]. unfold ToAPMData, Count.
  split; [by rewrite Hbuf', Hb1, <- Hjoin|].
  split; [rewrite Hcnt'; lia|]. split; [simpl; congruence|].
  split; [congruence|].
  intros Hnl. apply Hage'; [done| |lia].
  destruct events; [simpl in Hlen; lia|done].
Qed.

(** An ndjson body with a trailing newline on a fresh batch: the buffer is
    the body, and the two newlines make two entries. *)
Lemma AddAgentData_passes_body_through_witness :
  let body := Scenario.meta1 ++ [newline] ++ bytes_of "{'span':{}}"
              ++ [newline] in
  let b := RegisterInvocation "R3" "arn:aws:lambda:fn" 3000 100
             (NewBatch 10 1000) in
  exists b',
    AddAgentData 150 body "identity" b = Ret (b', None)
    /\ ToAPMData b' = body /\ Count b' = 2 /\ metadataBytes b' = 10
    /\ age b' = 150.
Proof.
  intros body b.
  destruct (AddAgentData_passes_body_through 150 body body "identity" b
              {| RequestID := "R3"; FunctionARN := "arn:aws:lambda:fn";
                 DeadlineMs := 3000; Timestamp := 100;
                 TraceID := EmptyString; TransactionID := EmptyString;
                 TransactionObserved := false |})
    as (b' & Hcall & Hbuf & Hcount & Hmeta & _ & Hage).
  - apply RegisterInvocation_inv, NewBatch_inv. unfold int_range. lia.
  - by vm_compute.
  - reflexivity.
  - reflexivity.
  - by vm_compute.
  - by vm_compute.
  - reflexivity.
  - by vm_compute.
  - exists b'. split; [exact Hcall|]. split; [exact Hbuf|].
    split; [exact Hcount|]. split; [exact Hmeta|].
    apply Hage. by vm_compute.
Defined.

(** ** Registration, announcement and late calls *)

(** X1.  [RegisterInvocation] starts the invocation afresh.  Whatever the map
    held under the request ID, the invocation stored has no transaction ID
    and is not observed, so it needs no proxy transaction: finalizing it
    appends nothing and returns no error, even if the agent had announced a
    transaction for that request ID before.  The request becomes the current
    one; the other invocations, the buffer, the counters and the limits are
    untouched. *)
Theorem RegisterInvocation_resets `{Externals} (now : Z)
    (requestID functionARN status : string) (deadlineMs timestamp : Z)
    (b : Batch) :
  let b1 := RegisterInvocation requestID functionARN deadlineMs timestamp b in
  (exists inc,
     invocations b1 !! requestID = Some inc
     /\ RequestID inc = requestID /\ TransactionID inc = EmptyString
     /\ TransactionObserved inc = false /\ NeedProxyTransaction inc = false)
  /\ currentlyExecutingRequestID b1 = requestID
  /\ (forall key, key <> requestID ->
        invocations b1 !! key = invocations b !! key)
  /\ buf b1 = buf b /\ count b1 = count b /\ age b1 = age b
  /\ metadataBytes b1 = metadataBytes b
  /\ maxSize b1 = maxSize b /\ maxAge b1 = maxAge b
  /\ (finalizeInvocation now requestID status b1).2 = None
  /\ buf (finalizeInvocation now requestID status b1).1 = buf b
  /\ count (finalizeInvocation now requestID status b1).1 = count b.
Proof.
  intros b1.
  assert (Hlook : invocations b1 !! requestID
                  = Some {| RequestID := requestID;
                            FunctionARN := functionARN;
                            DeadlineMs := deadlineMs; Timestamp := timestamp;
                            TraceID := EmptyString;
                            TransactionID := EmptyString;
                            TransactionObserved := false |}).
  { apply lookup_insert_eq. }
  split; [by eexists|]. split; [done|]. split.
  { intros key Hne. by apply lookup_insert_ne. }
  do 6 (split; [done|]).
  unfold finalizeInvocation. rewrite Hlook. by unfold Finalize.
Qed.

(** X2.  [OnAgentInit] writes the two IDs into the invocation of the current
    request and nothing else: it fails, leaving the batch as it was, when the
    current request has no invocation; otherwise the other invocations, the
    buffer and the counters stay, and so does [TransactionObserved].  Hence a
    new announcement does not arm the proxy again: once the transaction of
    the current invocation was observed, the invocation needs no proxy
    transaction whatever IDs are announced later. *)
Theorem OnAgentInit_contract (transactionID traceID : string) (b : Batch) :
  let key := currentlyExecutingRequestID b in
  (invocations b !! key = None ->
   OnAgentInit transactionID traceID b = (b, Some (ErrNoInvocation key)))
  /\ (forall inc,
        invocations b !! key = Some inc ->
        let inc' := set_Transaction transactionID traceID inc in
        let b' := (OnAgentInit transactionID traceID b).1 in
        (OnAgentInit transactionID traceID b).2 = None
        /\ invocations b' !! key = Some inc'
        /\ (forall k, k <> key -> invocations b' !! k = invocations b !! k)
        /\ TransactionID inc' = transactionID /\ TraceID inc' = traceID
        /\ TransactionObserved inc' = TransactionObserved inc
        /\ RequestID inc' = RequestID inc
        /\ NeedProxyTransaction inc'
           = negb (bool_decide (transactionID = EmptyString))
             && negb (TransactionObserved inc)
        /\ (TransactionObserved inc = true ->
            NeedProxyTransaction inc' = false)
        /\ buf b' = buf b /\ count b' = count b /\ age b' = age b
        /\ metadataBytes b' = metadataBytes b
        /\ currentlyExecutingRequestID b' = key).
Proof.
  intros key. unfold OnAgentInit. fold key. split.
  - by intros ->.
  - intros inc ->. simpl.
    split; [done|]. split; [apply lookup_insert_eq|]. split.
    { intros k Hne. by apply lookup_insert_ne. }
    do 5 (split; [done|]). split; [|done].
    intros Hobs. unfold NeedProxyTransaction. simpl. rewrite Hobs.
    apply andb_false_r.
Qed.

(** X3.  Calls of the agent that come after the current invocation was
    finalized are refused.  [OnLambdaLogRuntimeDone] removes the invocation
    but leaves the request ID current, so until the next registration
    [OnAgentInit] and [AddAgentData] (with a body that decodes) fail for
    want of an invocation, as does a second finalization, and none of them
    changes the batch: the data of the agent is not taken. *)
Theorem late_agent_calls_refused `{Externals} (now now' : Z)
    (status transactionID traceID : string) (b : Batch) :
  let key := currentlyExecutingRequestID b in
  let b1 := (OnLambdaLogRuntimeDone now key status b).1 in
  currentlyExecutingRequestID b1 = key
  /\ invocations b1 !! key = None
  /\ OnAgentInit transactionID traceID b1 = (b1, Some (ErrNoInvocation key))
  /\ (forall data encoding raw,
        GetUncompressedBytes data encoding = inl raw ->
        AddAgentData now' data encoding b1
        = Ret (b1, Some (ErrNoInvocation key)))
  /\ OnLambdaLogRuntimeDone now' key status b1
     = (b1, Some (ErrNoInvocation key)).
Proof.
  intros key b1.
  assert (Hcur : currentlyExecutingRequestID b1 = key).
  { subst b1. unfold OnLambdaLogRuntimeDone, finalizeInvocation. fold key.
    destruct (invocations b !! key) as [inc|]; [|done].
    destruct (Finalize inc status now) as [proxyTxn|]; [|done].
    destruct (addData_cases now proxyTxn b)
      as [[_ E]|[(_ & _ & E)|(_ & _ & b2 & E & _ & _ & _ & _ & _ & _ & _
                               & Hr)]];
      by rewrite E. }
  assert (Hgone : invocations b1 !! key = None).
  { subst b1. unfold OnLambdaLogRuntimeDone, finalizeInvocation.
    destruct (invocations b !! key) as [inc|] eqn:Hinc; [|done].
    destruct (Finalize inc status now) as [proxyTxn|];
      [destruct (addData now proxyTxn b)|]; simpl; apply lookup_delete_eq. }
  split; [done|]. split; [done|]. split; [|split].
  - unfold OnAgentInit. by rewrite Hcur, Hgone.
  - intros data encoding raw Hraw. unfold AddAgentData. rewrite Hraw.
    pose proof (Split_nonempty raw) as Hne.
    destruct (Split raw) as [|line0 events]; [done|].
    by rewrite Hcur, Hgone.
  - unfold OnLambdaLogRuntimeDone, finalizeInvocation. by rewrite Hgone.
Qed.

(** ** What a call of the agent changes *)

Section AgentFrame.
Context `{Externals}.

(** The loop of [AddAgentData] returns, and of the invocations it changes at
    most the one under [key], by marking its transaction as observed. *)
Lemma AddAgentData_loop_frame (now : Z) (key : string) (events : list bytes)
    (b : Batch) (inc : Invocation) :
  invocations b !! key = Some inc ->
  exists b' e,
    AddAgentData_loop now key events b = Ret (b', e)
    /\ currentlyExecutingRequestID b' = currentlyExecutingRequestID b
    /\ maxSize b' = maxSize b /\ maxAge b' = maxAge b
    /\ metadataBytes b' = metadataBytes b
    /\ (forall k, k <> key -> invocations b' !! k = invocations b !! k)
    /\ (invocations b' !! key = Some inc
        \/ (NeedProxyTransaction inc = true
            /\ invocations b' !! key
               = Some (set_TransactionObserved true inc))).
Proof.
  revert b inc. induction events as [|line events IH]; intros b inc Hinc.
  { exists b, None. simpl. repeat split; auto. }
  simpl AddAgentData_loop.
  destruct (AddAgentData_event_cases now key line b inc Hinc)
    as [[Hobs E]|[_ E]]; rewrite E; simpl.
  - set (inc' := set_TransactionObserved true inc).
    assert (Hneed : NeedProxyTransaction inc = true).
    { unfold observes in Hobs. by apply andb_prop in Hobs as [? _]. }
    assert (Hneed' : NeedProxyTransaction inc' = false).
    { unfold NeedProxyTransaction. simpl. apply andb_false_r. }
    destruct (IH (store key inc' b) inc') as (b' & e & Hloop & Hcur & Hs & Ha
                                              & Hm & Hothers & Hkey).
    { apply lookup_insert_eq. }
    exists b', e. split; [done|]. do 4 (split; [done|]). split.
    + intros k Hne. rewrite Hothers by done. simpl.
      by rewrite lookup_insert_ne.
    + right. split; [done|]. destruct Hkey as [?|[Hn _]]; [done|congruence].
  - destruct (addData_cases now line b)
      as [[_ Ea]|[(_ & _ & Ea)|(_ & _ & b1 & Ea & _ & _ & _ & Hm1 & Hi1 & Hs1
                                 & Ha1 & Hc1)]]; rewrite Ea.
    + exists b, (Some ErrMetadataUnavailable). repeat split; auto.
    + exists b, (Some ErrBatchFull). repeat split; auto.
    + destruct (IH b1 inc) as (b' & e & Hloop & Hcur & Hs & Ha & Hm & Hothers
                               & Hkey).
      { by rewrite Hi1. }
      exists b', e. split; [done|].
      split; [congruence|]. split; [congruence|]. split; [congruence|].
      split; [congruence|]. split; [|done].
      intros k Hne. rewrite Hothers by done. by rewrite Hi1.
Qed.

End AgentFrame.

(** X12.  [AddAgentData] never panics: on every batch, body and encoding it
    returns.  Of the invocations it changes at most the current one, and
    that only by marking its transaction as observed, which it does only
    for an invocation that needed a proxy transaction; it registers and
    removes none, and leaves the current request ID and the two limits as
    they were.  When the body does not decode, it changes nothing at all. *)
Theorem AddAgentData_returns `{Externals} (now : Z) (data : bytes)
    (encoding : string) (b : Batch) :
  let key := currentlyExecutingRequestID b in
  exists b' e,
    AddAgentData now data encoding b = Ret (b', e)
    /\ currentlyExecutingRequestID b' = key
    /\ maxSize b' = maxSize b /\ maxAge b' = maxAge b
    /\ (forall k, k <> key -> invocations b' !! k = invocations b !! k)
    /\ (invocations b' !! key = invocations b !! key
        \/ exists inc,
             invocations b !! key = Some inc
             /\ NeedProxyTransaction inc = true
             /\ invocations b' !! key
                = Some (set_TransactionObserved true inc))
    /\ (forall err, GetUncompressedBytes data encoding = inr err ->
        b' = b /\ e = Some err)
    /\ (invocations b !! key = None -> b' = b).
Proof.
  intros key. unfold AddAgentData. fold key.
  destruct (GetUncompressedBytes data encoding) as [raw|err].
  2:{ exists b, (Some err). repeat split; auto; congruence. }
  destruct (Split raw) as [|line0 events].
  { exists b, None. repeat split; auto; congruence. }
  destruct (invocations b !! key) as [inc|] eqn:Hinc.
  2:{ exists b, (Some (ErrNoInvocation key)). repeat split; auto; congruence. }
  assert (Hfields : invocations (AddAgentData_metadata line0 b) = invocations b
                    /\ currentlyExecutingRequestID (AddAgentData_metadata line0 b)
                       = key
                    /\ maxSize (AddAgentData_metadata line0 b) = maxSize b
                    /\ maxAge (AddAgentData_metadata line0 b) = maxAge b).
  { unfold AddAgentData_metadata. by destruct (decide (metadataBytes b = 0)). }
  destruct Hfields as (Hi0 & Hc0 & Hs0 & Ha0).
  destruct (AddAgentData_loop_frame now key events
              (AddAgentData_metadata line0 b) inc)
    as (b' & e & Hloop & Hcur & Hs & Ha & _ & Hothers & Hkey).
  { by rewrite Hi0. }
  exists b', e. split; [done|].
  split; [congruence|]. split; [congruence|]. split; [congruence|].
  split; [|split; [|split; [done|done]]].
  - intros k Hne. rewrite Hothers by done. by rewrite Hi0.
  - destruct Hkey as [Hsame|[Hneed Hmark]]; [by left|].
    right. by exists inc.
Qed.

(** X13.  A body that begins with a newline gives the batch no metadata: its
    first line is empty, so [metadataBytes] stays zero.  On a batch without
    metadata, for a current invocation that does not wait for a transaction,
    the first event of such a body is refused with [ErrMetadataUnavailable]
    and the batch is left as it was. *)
Theorem AddAgentData_empty_metadata_line `{Externals} (now : Z)
    (data rest : bytes) (encoding : string) (b : Batch) (inc : Invocation) :
  metadataBytes b = 0 ->
  GetUncompressedBytes data encoding = inl (newline :: rest) ->
  invocations b !! currentlyExecutingRequestID b = Some inc ->
  NeedProxyTransaction inc = false ->
  AddAgentData now data encoding b = Ret (b, Some ErrMetadataUnavailable).
Proof.
  intros Hmeta Hraw Hinc Hneed. unfold AddAgentData. rewrite Hraw.
  assert (Hsplit : Split (newline :: rest) = [] :: Split rest).
  { cbn [Split]. by destruct (decide (newline = newline)). }
  rewrite Hsplit.
  pose proof (Split_nonempty rest) as Hne.
  destruct (Split rest) as [|line events]; [done|].
  rewrite Hinc. clear Hsplit.
  assert (Hsame : AddAgentData_metadata [] b = b).
  { unfold AddAgentData_metadata. rewrite decide_True by done.
    destruct b. simpl in *. subst. by rewrite app_nil_r. }
  rewrite Hsame. simpl AddAgentData_loop.
  destruct (AddAgentData_event_cases now (currentlyExecutingRequestID b) line
              b inc Hinc) as [[Hobs _]|[_ E]].
  { unfold observes in Hobs. by rewrite Hneed in Hobs. }
  rewrite E. by rewrite addData_no_metadata.
Qed.

(** The registered invocation of scenario S3 on a new batch: the body is a
    newline and an event. *)
Lemma AddAgentData_empty_metadata_line_witness :
  let b := RegisterInvocation "R3" "arn:aws:lambda:fn" 3000 100
             (NewBatch 10 1000) in
  AddAgentData 150 (newline :: bytes_of "{}") "identity" b
  = Ret (b, Some ErrMetadataUnavailable).
Proof.
  intros b.
  apply (AddAgentData_empty_metadata_line 150 (newline :: bytes_of "{}")
           (bytes_of "{}") "identity" b
           {| RequestID := "R3"; FunctionARN := "arn:aws:lambda:fn";
              DeadlineMs := 3000; Timestamp := 100;
              TraceID := EmptyString; TransactionID := EmptyString;
              TransactionObserved := false |}).
  - reflexivity.
  - by vm_compute.
  - by vm_compute.
  - reflexivity.
Defined.

(** ** The outcome of OnShutdown *)

Lemma needing_nil (m : gmap string Invocation) : needing m [] = 0%nat.
Proof. done. Qed.

Lemma needing_cons (m : gmap string Invocation) (key : string)
    (order : list string) (inc : Invocation) :
  m !! key = Some inc ->
  needing m (key :: order)
  = if NeedProxyTransaction inc then S (needing m order) else needing m order.
Proof.
  intros Hk. unfold needing. rewrite filter_cons, Hk.
  change (NeedProxyTransaction <$> Some inc)
    with (Some (NeedProxyTransaction inc)).
  destruct (NeedProxyTransaction inc).
  - by rewrite decide_True.
  - by rewrite decide_False.
Qed.

Lemma needing_delete (m : gmap string Invocation) (key : string)
    (order : list string) :
  key ∉ order -> needing (delete key m) order = needing m order.
Proof.
  intros Hout. unfold needing. f_equal.
  induction order as [|k order IH]; [done|].
  apply not_elem_of_cons in Hout as [Hne Hout].
  rewrite !filter_cons, lookup_delete_ne by done. rewrite IH by done. done.
Qed.

Lemma needing_perm (m : gmap string Invocation) (order order' : list string) :
  order ≡ₚ order' -> needing m order = needing m order'.
Proof. intros Hperm. unfold needing. by rewrite Hperm. Qed.

Section ShutdownOutcome.
Context `{Externals}.

(** The loop of [OnShutdown] fails exactly when an invocation needs a proxy
    transaction and the batch has no metadata or not the room for all of
    them. *)
Lemma OnShutdown_loop_outcome (now : Z) (status : string)
    (order : list string) (b : Batch) :
  NoDup order ->
  (forall key, key ∈ order ->
     exists inc, invocations b !! key = Some inc /\ RequestID inc = key) ->
  batch_inv b -> 0 <= maxSize b ->
  let n := needing (invocations b) order in
  (n = 0%nat \/ (metadataBytes b <> 0 /\ count b + Z.of_nat n <= maxSize b) ->
   exists b',
     OnShutdown_loop now status order b = (b', None)
     /\ count b' = count b + Z.of_nat n
     /\ metadataBytes b' = metadataBytes b
     /\ (n = 0%nat -> b' = set_invocations (invocations b') b))
  /\ (~ (n = 0%nat
         \/ (metadataBytes b <> 0 /\ count b + Z.of_nat n <= maxSize b)) ->
      (OnShutdown_loop now status order b).2
      = Some (if decide (metadataBytes b = 0) then ErrMetadataUnavailable
              else ErrBatchFull)).
Proof.
  intros Hnodup. revert b.
  induction Hnodup as [|key order Hout Hnodup IH];
    intros b Hkeys Hinv Hsize n.
  { subst n. rewrite needing_nil. simpl. split.
    - intros _. exists b. split; [done|]. split; [lia|]. split; [done|].
      intros _. by destruct b.
    - intros Hno. exfalso. apply Hno. by left. }
  destruct (Hkeys key (list_elem_of_here _ _)) as (inc & Hinc & Hid).
  assert (Hn : n = if NeedProxyTransaction inc
                   then S (needing (invocations b) order)
                   else needing (invocations b) order).
  { subst n. by apply needing_cons. }
  clearbody n.
  cbn [OnShutdown_loop]. rewrite Hinc, Hid.
  assert (Hkeys' : forall m, m = delete key (invocations b) ->
            forall k, k ∈ order ->
              exists i, m !! k = Some i /\ RequestID i = k).
  { intros m -> k Hk. rewrite lookup_delete_ne by (intros ->; done).
    apply Hkeys. by apply list_elem_of_further. }
  pose proof (count_nonneg b Hinv Hsize) as Hc0.
  destruct (inv_count b Hinv) as [_ Hle]. specialize (Hle Hsize).
  destruct (inv_int b Hinv) as [Hci Hsi]. unfold int_range in *.
  unfold finalizeInvocation, Finalize. rewrite Hinc.
  destruct (NeedProxyTransaction inc) eqn:Hneed.
  - (* the invocation needs a proxy transaction *)
    destruct (decide (metadataBytes b = 0)) as [Hm|Hm].
    { rewrite addData_no_metadata by done. simpl. split.
      - intros [Hz|[Hm' _]]; [lia|done].
      - done. }
    destruct (decide (count b = maxSize b)) as [Hfull|Hfree].
    { rewrite addData_full by done. simpl. split.
      - intros [Hz|[_ Hroom]]; lia.
      - done. }
    rewrite addData_accepts by done.
    set (b0 := {| metadataBytes := metadataBytes b;
                  buf := buf b ++ newline :: createProxyTxn inc status now;
                  invocations := invocations b;
                  count := wrap64 (count b + 1);
                  age := if decide (count b = 0) then now else age b;
                  maxSize := maxSize b; maxAge := maxAge b;
                  currentlyExecutingRequestID :=
                    currentlyExecutingRequestID b |}).
    set (b1 := set_invocations (delete key (invocations b0)) b0).
    assert (Hinv1 : batch_inv b1).
    { apply delete_inv.
      replace b0 with (addData now (createProxyTxn inc status now) b).1; 
        [by apply addData_preserves_inv|].
      by rewrite addData_accepts. }
    assert (Hc1 : count b1 = count b + 1).
    { simpl. apply wrap64_small. unfold int_range. lia. }
    destruct (IH b1 (Hkeys' _ eq_refl) Hinv1 Hsize) as [IHok IHerr].
    assert (Hn1 : needing (invocations b1) order
                  = needing (invocations b) order).
    { simpl. by apply needing_delete. }
    rewrite Hn1 in IHok, IHerr.
    change (metadataBytes b1) with (metadataBytes b) in IHok, IHerr.
    change (maxSize b1) with (maxSize b) in IHok, IHerr.
    rewrite Hc1 in IHok, IHerr.
    split.
    + intros [Hz|[_ Hroom]]; [lia|].
      destruct IHok as (b' & Hloop & Hcount & Hmeta & _).
      { right. split; [done|lia]. }
      exists b'. split; [done|]. split; [lia|]. split; [done|]. lia.
    + intros Hno.
      rewrite (decide_False (P := metadataBytes b = 0)) in IHerr by done.
      apply IHerr. intros [Hz|[_ Hroom]].
      * apply Hno. right. split; [done|]. lia.
      * apply Hno. right. split; [done|]. lia.
  - (* it needs none: it is removed, nothing else happens *)
    set (b1 := set_invocations (delete key (invocations b)) b).
    assert (Hinv1 : batch_inv b1) by (by apply delete_inv).
    destruct (IH b1 (Hkeys' _ eq_refl) Hinv1 Hsize) as [IHok IHerr].
    assert (Hn1 : needing (invocations b1) order
                  = needing (invocations b) order).
    { simpl. by apply needing_delete. }
    rewrite Hn1, <- Hn in IHok, IHerr.
    change (metadataBytes b1) with (metadataBytes b) in IHok, IHerr.
    change (maxSize b1) with (maxSize b) in IHok, IHerr.
    change (count b1) with (count b) in IHok, IHerr.
    split; [|done].
    intros Hroom. destruct (IHok Hroom) as (b' & Hloop & Hcount & Hmeta & Hz).
    exists b'. split; [done|]. split; [done|]. split; [done|].
    intros Hzero. rewrite (Hz Hzero). by destruct b'.
Qed.

End ShutdownOutcome.

(** X11.  Whether [OnShutdown] fails, and with which error, does not depend
    on the order in which the map is ranged over.  In a batch that keeps the
    invariant of the reachable states, with a size limit that is not
    negative, let [n] be the number of invocations that need a proxy
    transaction.  If [n] is zero, or the batch has its metadata and room for
    [n] more entries, [OnShutdown] returns no error in every order: the map
    is emptied, [count] grows by [n], and with [n] zero nothing but the map
    changes.  Otherwise it returns an error in every order:
    [ErrMetadataUnavailable] when the metadata is missing, [ErrBatchFull]
    when it is there. *)
Theorem OnShutdown_outcome `{Externals} (now : Z) (status : string)
    (order : list string) (b : Batch) :
  iteration_order b order -> batch_inv b -> 0 <= maxSize b ->
  let n := needing (invocations b) (map_to_list (invocations b)).*1 in
  let room :=
    n = 0%nat
    \/ (metadataBytes b <> 0 /\ count b + Z.of_nat n <= maxSize b) in
  let b' := (OnShutdown now status order b).1 in
  (room ->
   (OnShutdown now status order b).2 = None
   /\ invocations b' = ∅
   /\ count b' = count b + Z.of_nat n
   /\ buf b' = buf b ++ frame (proxies now status (invocations b) order)
   /\ (n = 0%nat -> b' = set_invocations ∅ b))
  /\ (~ room ->
      (OnShutdown now status order b).2
      = Some (if decide (metadataBytes b = 0) then ErrMetadataUnavailable
              else ErrBatchFull)).
Proof.
  intros Horder Hinv Hsize n room b'.
  assert (Hnodup : NoDup order).
  { unfold iteration_order in Horder. rewrite Horder.
    apply NoDup_fst_map_to_list. }
  assert (Hkeys : forall key, key ∈ order ->
            exists inc, invocations b !! key = Some inc /\ RequestID inc = key).
  { intros key Hin. unfold iteration_order in Horder. rewrite Horder in Hin.
    apply list_elem_of_fmap in Hin as ([k inc] & -> & Hin).
    apply elem_of_map_to_list in Hin. exists inc. split; [done|].
    by apply (inv_keys b Hinv). }
  assert (Hn : n = needing (invocations b) order).
  { subst n. symmetry. by apply needing_perm. }
  destruct (OnShutdown_loop_outcome now status order b Hnodup Hkeys Hinv Hsize)
    as [Hok Herr].
  rewrite <- Hn in Hok, Herr.
  pose proof (OnShutdown_loop_spec now status order b Hnodup Hkeys) as Hspec.
  subst b'. unfold OnShutdown. split.
  - intros Hroom. destruct (Hok Hroom) as (b' & Hloop & Hcount & _ & Hz).
    rewrite Hloop in Hspec |- *. destruct Hspec as [Hi Hb]. simpl.
    assert (Hempty : invocations b' = ∅).
    { rewrite Hi. by apply foldr_delete_all. }
    split; [done|]. split; [done|]. split; [done|]. split; [done|].
    intros Hzero. rewrite (Hz Hzero). by rewrite Hempty.
  - intros Hno. by apply Herr.
Qed.

(** Scenario S5 after the metadata has come, with room for ten entries: both
    invocations need a proxy transaction, and [OnShutdown] appends both. *)
Lemma OnShutdown_outcome_witness :
  let b := Scenario.S5_with_metadata 10 in
  let b' := (OnShutdown 400 "failure" ["R5"; "R4"]%string b).1 in
  (OnShutdown 400 "failure" ["R5"; "R4"]%string b).2 = None
  /\ invocations b' = ∅ /\ count b' = 2.
Proof.
  intros b b'.
  assert (Hinv : batch_inv b).
  { apply (AddAgentData_inv 250 Scenario.meta1 "identity"
             (Scenario.S5_open 10) b None); [|by vm_compute].
    apply OnAgentInit_inv, RegisterInvocation_inv, OnAgentInit_inv,
      RegisterInvocation_inv, NewBatch_inv.
    unfold int_range. lia. }
  destruct (OnShutdown_outcome 400 "failure" ["R5"; "R4"]%string b)
    as [Hok _].
  - unfold iteration_order. vm_compute.
    first [reflexivity | apply perm_swap].
  - exact Hinv.
  - by vm_compute.
  - destruct Hok as (Herr & Hempty & Hcount & _).
    + right. split; by vm_compute.
    + split; [exact Herr|]. split; [exact Hempty|].
      etransitivity; [exact Hcount|]. by vm_compute.
Defined.

(** ** Shipping and starting over *)

(** X8.  What [ShouldShip] says of small limits and of empty batches, for a
    batch made with a size limit from zero to below [2^50].  With a limit of
    zero or one the threshold is zero, so every reachable state asks to be
    shipped, at every time, the empty batch too.  With a limit of two or more
    an empty batch never asks to be shipped, however much time has passed:
    its [age] is the zero time. *)
Theorem ShouldShip_empty_batch `{Externals} (size0 age0 now : Z) (b : Batch) :
  reachable size0 age0 b -> 0 <= size0 < 2 ^ 50 ->
  (size0 <= 1 -> ShouldShip now b = true)
  /\ (2 <= size0 -> count b = 0 -> ShouldShip now b = false)
  /\ (count b = 0 -> (ShouldShip now b = true <-> size0 <= 1)).
Proof.
  intros Hreach Hsize.
  destruct (buffer_limits_of_reachable size0 age0 b Hreach ltac:(lia))
    as [Hinv Hmax].
  pose proof (count_nonneg b Hinv ltac:(lia)) as Hc0.
  assert (Hth : threshold (maxSize b) = 9 * size0 / 10).
  { rewrite Hmax. by apply threshold_floor. }
  assert (Hsmall : size0 <= 1 -> ShouldShip now b = true).
  { intros Hle. unfold ShouldShip. rewrite Hth.
    assert (9 * size0 / 10 = 0) as ->.
    { apply Z.div_small. lia. }
    rewrite bool_decide_eq_true_2 by lia. done. }
  assert (Hlarge : 2 <= size0 -> count b = 0 -> ShouldShip now b = false).
  { intros Hge Hzero. unfold ShouldShip. rewrite Hth.
    destruct (inv_empty b Hinv Hzero) as [_ Hage].
    assert (1 <= 9 * size0 / 10).
    { apply Z.div_le_lower_bound; lia. }
    rewrite bool_decide_eq_false_2 by lia.
    rewrite (bool_decide_eq_true_2 _ Hage). done. }
  split; [done|]. split; [done|].
  intros Hzero. split.
  - intros Hship. destruct (Z_le_gt_dec size0 1) as [|Hgt]; [done|].
    rewrite Hlarge in Hship by lia. done.
  - done.
Qed.

(** A new batch with a size limit of one asks to be shipped. *)
Lemma ShouldShip_empty_batch_witness :
  ShouldShip 0 (NewBatch 1 1000) = true.
Proof.
  destruct (ShouldShip_empty_batch 1 1000 0 (NewBatch 1 1000)) as [Hsmall _].
  - apply reachable_new. unfold int_range. lia.
  - lia.
  - apply Hsmall. lia.
Defined.

(** X9.  [Reset] starts the batch over and keeps its metadata.  In a
    reachable state of a batch with a size limit of at least one, [Reset]
    returns, and a second [Reset] changes nothing more.  If the batch has its
    metadata, the entry added next is accepted whatever the batch held
    before: the output is then the metadata, a newline and that entry, the
    count is one, and the age is the time of that call. *)
Theorem Reset_starts_over `{Externals} (size0 age0 : Z) (b : Batch) :
  reachable size0 age0 b -> 1 <= size0 ->
  exists b1,
    Reset b = Ret b1
    /\ Reset b1 = Ret b1
    /\ ToAPMData b1 = take (Z.to_nat (metadataBytes b)) (buf b)
    /\ (metadataBytes b <> 0 ->
        forall now d,
          exists b2,
            AddLambdaData now d b1 = (b2, None)
            /\ ToAPMData b2
               = take (Z.to_nat (metadataBytes b)) (buf b) ++ newline :: d
            /\ Count b2 = 1 /\ age b2 = now
            /\ invocations b2 = invocations b).
Proof.
  intros Hreach Hsize.
  destruct (buffer_limits_of_reachable size0 age0 b Hreach ltac:(lia))
    as [Hinv Hmax].
  pose proof (inv_metadata b Hinv) as Hmeta.
  eexists. split; [by apply Reset_returns|]. split; [|split; [done|]].
  - rewrite Reset_returns; simpl.
    + by rewrite take_take, Nat.min_id.
    + rewrite length_take. lia.
  - intros Hm now d. unfold AddLambdaData.
    rewrite addData_accepts by (simpl; lia). simpl.
    eexists. split; [done|]. simpl. done.
Qed.

(** Scenario S1 with one more entry, shipped and reset: the next entry
    follows the metadata line of scenario S1. *)
Lemma Reset_starts_over_witness :
  let b := (AddLambdaData 160 (bytes_of "log") (Scenario.S1_after_agent 10)).1
  in
  exists b1,
    Reset b = Ret b1
    /\ Reset b1 = Ret b1
    /\ ToAPMData b1 = Scenario.meta1
    /\ exists b2,
         AddLambdaData 170 (bytes_of "next") b1 = (b2, None)
         /\ ToAPMData b2 = Scenario.meta1 ++ newline :: bytes_of "next"
         /\ Count b2 = 1 /\ age b2 = 170.
Proof.
  intros b.
  destruct (Reset_starts_over 10 1000 b S1_with_entry_reachable)
    as (b1 & Hreset & Hagain & Hout & Hnext).
  - lia.
  - exists b1. split; [exact Hreset|]. split; [exact Hagain|].
    split; [by rewrite Hout|].
    destruct (Hnext ltac:(by vm_compute) 170 (bytes_of "next"))
      as (b2 & Hadd & Hout2 & Hcount & Hage & _).
    exists b2. split; [exact Hadd|]. split; [by rewrite Hout2|].
    split; [exact Hcount|exact Hage].
Defined.
